(** * pkg/tiller/client_config.go: the deferred, impersonating client configuration

    A shallow embedding of [DeferredLoadingClientConfig] and its methods
    ([createClientConfig], [RawConfig], [ClientConfig], [Namespace],
    [ConfigAccess]) together with the properties of the lazy cache, of the
    in-cluster fallback and of the impersonation write.

    Go values are modelled as follows.
    - A pointer or an interface value that may be nil is an [option]; using a
      nil one (calling a method on it, reading or writing through it) panics.
    - [*restclient.Config] is an address into a store of configurations, so the
      write through [mergedConfig] in [ClientConfig] is a store update that
      every holder of the same address observes.
    - The collaborators (the loader, the merged configuration built by
      client-go, the in-cluster detector) are interface values: records of
      methods.  A method reads and changes the world outside this package (files,
      environment, the configuration store) and returns its results.
    - Every call that leaves the package is recorded in a trace, so that "the
      detector is not consulted" or "Load is not called again" are statements
      about the events a call appends. *)

From stdpp Require Import base option list strings gmap.

(** ** What the package imports *)

(** Types of the Go runtime and of client-go that the package only passes
    around: the state of the outside world, error values, [io.Reader], and the
    fields of [restclient.Config] other than [Impersonate]. *)
Class Imports := {
  Env : Type;
  error : Type;
  io_Reader : Type;
  restclient_Fields : Type;
}.

(** [v1.NamespaceDefault] of k8s.io/api/core/v1. *)
Definition v1_NamespaceDefault : string := "default".

(** An address of a [restclient.Config]. *)
Definition addr := positive.

(** [restclient.ImpersonationConfig]. *)
Record restclient_ImpersonationConfig := {
  UserName : string;
  Groups : list string;
  Extra : gmap string (list string);
}.

(** [clientcmdapi.Context]. *)
Record clientcmdapi_Context := {
  ctx_Cluster : string;
  ctx_AuthInfo : string;
  ctx_Namespace : string;
}.

(** [clientcmdapi.Config], the raw configuration: the fields this package
    reads.  [Contexts] is a [map[string]*Context]; an entry may hold nil. *)
Record clientcmdapi_Config := {
  CurrentContext : string;
  Contexts : gmap string (option clientcmdapi_Context);
}.

(** [clientcmd.ConfigOverrides]: the fields this package reads. *)
Record clientcmd_ConfigOverrides := {
  ov_CurrentContext : string;
  ov_Context : clientcmdapi_Context;
}.

(** Calls that leave the package. *)
Inductive event :=
  | EvLoad
  | EvIsDefaultConfig
  | EvNewInteractiveClientConfig
  | EvNewNonInteractiveClientConfig
  | EvMergedRawConfig
  | EvMergedClientConfig
  | EvMergedNamespace
  | EvPossible
  | EvInClusterClientConfig
  | EvInClusterNamespace
  | EvLog (msg : string).

(** The calls made on the in-cluster detector. *)
Definition icc_event (e : event) : bool :=
  match e with
  | EvPossible | EvInClusterClientConfig | EvInClusterNamespace => true
  | _ => false
  end.

(** The calls that read the detector's configuration or namespace. *)
Definition icc_source_event (e : event) : bool :=
  match e with
  | EvInClusterClientConfig | EvInClusterNamespace => true
  | _ => false
  end.

Definition is_load (e : event) : bool :=
  match e with EvLoad => true | _ => false end.

(** The calls [createClientConfig] makes. *)
Definition resolution_event (e : event) : bool :=
  match e with
  | EvLoad | EvNewInteractiveClientConfig | EvNewNonInteractiveClientConfig => true
  | _ => false
  end.

(** The calls of the two constructors of client-go, and how many of them a
    trace holds. *)
Definition constructor_event (e : event) : bool :=
  match e with
  | EvNewInteractiveClientConfig | EvNewNonInteractiveClientConfig => true
  | _ => false
  end.

Definition constructions (t : list event) : nat :=
  length (List.filter constructor_event t).

Section model.
Context {Imp : Imports}.

(** [restclient.Config]. *)
Record restclient_Config := {
  Impersonate : restclient_ImpersonationConfig;
  rest_fields : restclient_Fields;
}.

(** The world outside the package: the store of [restclient.Config] values
    and everything else a collaborator may read or change. *)
Record World := {
  heap : gmap addr restclient_Config;
  env : Env;
}.

(** A method of a collaborator. *)
Definition Ext (A : Type) : Type := World → A * World.

(** [clientcmd.ClientConfigLoader]. [Load] returns a [*clientcmdapi.Config],
    nil or the configuration it points to. *)
Record clientcmd_ClientConfigLoader := {
  Load : Ext (option clientcmdapi_Config * option error);
  IsDefaultConfig : option addr → Ext bool;
}.

(** [clientcmd.ClientConfig], the methods this package calls on one. *)
Record clientcmd_ClientConfig := {
  cc_RawConfig : Ext (clientcmdapi_Config * option error);
  cc_ClientConfig : Ext (option addr * option error);
  cc_Namespace : Ext (string * bool * option error);
}.

(** [InClusterConfig]: a [clientcmd.ClientConfig] with [Possible]. *)
Record InClusterConfig := {
  icc_ClientConfig :> clientcmd_ClientConfig;
  Possible : Ext bool;
}.

(** [DeferredLoadingClientConfig]. [loadingLock] is true while the mutex is
    held. *)
Record DeferredLoadingClientConfig := {
  loader : option clientcmd_ClientConfigLoader;
  overrides : option clientcmd_ConfigOverrides;
  fallbackReader : option io_Reader;
  user : string;
  groups : list string;
  clientConfig : option clientcmd_ClientConfig;
  loadingLock : bool;
  icc : option InClusterConfig;
}.

(** Functions of client-go that the package calls. *)
Class Clientcmd := {
  IsEmptyConfig : error → bool;
  NewInteractiveClientConfig :
    clientcmdapi_Config → string → clientcmd_ConfigOverrides → io_Reader →
    clientcmd_ClientConfigLoader → clientcmd_ClientConfig;
  NewNonInteractiveClientConfig :
    clientcmdapi_Config → string → clientcmd_ConfigOverrides →
    clientcmd_ClientConfigLoader → clientcmd_ClientConfig;
}.

(** ** Running a method *)

(** The receiver, the world and the calls made so far. *)
Record State := {
  self : DeferredLoadingClientConfig;
  world : World;
  trace : list event;
}.

(** A method returns, panics, or blocks for ever on the mutex. *)
Inductive Outcome (A : Type) :=
  | Ret (a : A) (s : State)
  | Panic (s : State)
  | Blocked.
Global Arguments Ret {A} a s.
Global Arguments Panic {A} s.
Global Arguments Blocked {A}.

Definition M (A : Type) : Type := State → Outcome A.

Definition ret {A} (a : A) : M A := λ s, Ret a s.

Definition bind {A B} (m : M A) (k : A → M B) : M B :=
  λ s, match m s with
       | Ret a s' => k a s'
       | Panic s' => Panic s'
       | Blocked => Blocked
       end.

Definition panic {A} : M A := λ s, Panic s.

Definition get_self : M DeferredLoadingClientConfig := λ s, Ret (self s) s.

(** Calling a method of a collaborator. *)
Definition call {A} (e : event) (f : Ext A) : M A :=
  λ s, let '(a, w) := f (world s) in
       Ret a {| self := self s; world := w; trace := trace s ++ [e] |}.

(** Calling a function that only builds a value. *)
Definition construct {A} (e : event) (a : A) : M A :=
  λ s, Ret a {| self := self s; world := world s; trace := trace s ++ [e] |}.

(** [glog.V(4).Infof]. *)
Definition glog_Infof (msg : string) : M unit :=
  λ s, Ret tt {| self := self s; world := world s; trace := trace s ++ [EvLog msg] |}.

(** Using a pointer or an interface value: nil panics. *)
Definition deref {A} (p : option A) : M A :=
  match p with
  | Some a => ret a
  | None => panic
  end.

Definition with_clientConfig (h : option clientcmd_ClientConfig)
    (c : DeferredLoadingClientConfig) : DeferredLoadingClientConfig :=
  {| loader := loader c; overrides := overrides c;
     fallbackReader := fallbackReader c; user := user c; groups := groups c;
     clientConfig := h; loadingLock := loadingLock c; icc := icc c |}.

Definition with_loadingLock (b : bool)
    (c : DeferredLoadingClientConfig) : DeferredLoadingClientConfig :=
  {| loader := loader c; overrides := overrides c;
     fallbackReader := fallbackReader c; user := user c; groups := groups c;
     clientConfig := clientConfig c; loadingLock := b; icc := icc c |}.

Definition with_identity (u : string) (g : list string)
    (c : DeferredLoadingClientConfig) : DeferredLoadingClientConfig :=
  {| loader := loader c; overrides := overrides c;
     fallbackReader := fallbackReader c; user := u; groups := g;
     clientConfig := clientConfig c; loadingLock := loadingLock c; icc := icc c |}.

Definition with_self (c : DeferredLoadingClientConfig) (s : State) : State :=
  {| self := c; world := world s; trace := trace s |}.

Definition with_world (w : World) (s : State) : State :=
  {| self := self s; world := w; trace := trace s |}.

Definition with_heap (h : gmap addr restclient_Config) (w : World) : World :=
  {| heap := h; env := env w |}.

(** [config.clientConfig = h]. *)
Definition set_clientConfig (h : clientcmd_ClientConfig) : M unit :=
  λ s, Ret tt (with_self (with_clientConfig (Some h) (self s)) s).

(** [sync.Mutex.Lock]: with the mutex held, the caller waits. *)
Definition Lock : M unit :=
  λ s, if loadingLock (self s) then Blocked
       else Ret tt (with_self (with_loadingLock true (self s)) s).

(** [sync.Mutex.Unlock]: unlocking a free mutex is a fatal error. *)
Definition Unlock : M unit :=
  λ s, if loadingLock (self s)
       then Ret tt (with_self (with_loadingLock false (self s)) s)
       else Panic s.

(** [defer d] followed by [body]: [d] runs when [body] returns and also when
    it panics. *)
Definition defer {A} (d : M unit) (body : M A) : M A :=
  λ s, match body s with
       | Ret a s' =>
           match d s' with
           | Ret _ s'' => Ret a s''
           | Panic s'' => Panic s''
           | Blocked => Blocked
           end
       | Panic s' =>
           match d s' with
           | Ret _ s'' => Panic s''
           | Panic s'' => Panic s''
           | Blocked => Blocked
           end
       | Blocked => Blocked
       end.

(** Reading and writing a [restclient.Config] through its address. *)
Definition read (a : addr) : M restclient_Config :=
  λ s, match heap (world s) !! a with
       | Some c => Ret c s
       | None => Panic s
       end.

Definition write (a : addr) (c : restclient_Config) : M unit :=
  λ s, Ret tt (with_world (with_heap (<[a := c]> (heap (world s))) (world s)) s).

Definition with_UserName (u : string) (c : restclient_Config) : restclient_Config :=
  {| Impersonate := {| UserName := u;
                       Groups := Groups (Impersonate c);
                       Extra := Extra (Impersonate c) |};
     rest_fields := rest_fields c |}.

Definition with_Groups (g : list string) (c : restclient_Config) : restclient_Config :=
  {| Impersonate := {| UserName := UserName (Impersonate c);
                       Groups := g;
                       Extra := Extra (Impersonate c) |};
     rest_fields := rest_fields c |}.

(** [p.Impersonate.UserName = u] and [p.Impersonate.Groups = g]. *)
Definition set_Impersonate_UserName (p : option addr) (u : string) : M unit :=
  bind (deref p) (λ a, bind (read a) (λ c, write a (with_UserName u c))).

Definition set_Impersonate_Groups (p : option addr) (g : list string) : M unit :=
  bind (deref p) (λ a, bind (read a) (λ c, write a (with_Groups g c))).

End model.

Global Arguments Ret {_ _} a s.
Global Arguments Panic {_ _} s.
Global Arguments Blocked {_ _}.

Declare Scope go_scope.
Delimit Scope go_scope with go.
Notation "x ← y ; z" := (bind y (λ x, z))
  (at level 20, y at level 100, z at level 200, only parsing) : go_scope.
Notation "' x ← y ; z" := (bind y (λ x, z))
  (at level 20, x pattern, y at level 100, z at level 200, only parsing) : go_scope.
Notation "x ;; z" := (bind x (λ _, z))
  (at level 100, z at level 200, only parsing, right associativity) : go_scope.
Local Open Scope go_scope.

(** ** The methods of [DeferredLoadingClientConfig] *)

Section methods.
Context {Imp : Imports} {Cmd : Clientcmd}.

(** [NewImpersonationClientConfig]: the fields it does not name are zero. *)
Definition NewImpersonationClientConfig
    (loader : option clientcmd_ClientConfigLoader)
    (overrides : option clientcmd_ConfigOverrides)
    (user : string) (groups : list string) : DeferredLoadingClientConfig :=
  {| loader := loader; overrides := overrides; fallbackReader := None;
     user := user; groups := groups;
     clientConfig := None; loadingLock := false; icc := None |}.

(** [createClientConfig]. Each path ends in the [return] it reaches in the
    source: [return nil, err] after a failed load, and the function's last
    line [return config.clientConfig, nil] otherwise. *)
Definition createClientConfig : M (option clientcmd_ClientConfig * option error) :=
  config ← get_self;
  match clientConfig config with
  | None =>
      Lock;;
      defer Unlock (
        config ← get_self;
        match clientConfig config with
        | None =>
            l ← deref (loader config);
            '(mergedConfig, err) ← call EvLoad (Load l);
            match err with
            | Some e => ret (None, Some e)
            | None =>
                cfg ← deref mergedConfig;
                ov ← deref (overrides config);
                mergedClientConfig ←
                  match fallbackReader config with
                  | Some rd =>
                      construct EvNewInteractiveClientConfig
                        (NewInteractiveClientConfig cfg (ov_CurrentContext ov) ov rd l)
                  | None =>
                      construct EvNewNonInteractiveClientConfig
                        (NewNonInteractiveClientConfig cfg (ov_CurrentContext ov) ov l)
                  end;
                set_clientConfig mergedClientConfig;;
                config ← get_self;
                ret (clientConfig config, None)
            end
        | Some _ => ret (clientConfig config, None)
        end)
  | Some _ => ret (clientConfig config, None)
  end.

(** The zero [clientcmdapi.Config]. *)
Definition clientcmdapi_Config_zero : clientcmdapi_Config :=
  {| CurrentContext := ""; Contexts := ∅ |}.

(** [RawConfig]. *)
Definition RawConfig : M (clientcmdapi_Config * option error) :=
  '(mergedConfig, err) ← createClientConfig;
  match err with
  | Some e => ret (clientcmdapi_Config_zero, Some e)
  | None =>
      h ← deref mergedConfig;
      call EvMergedRawConfig (cc_RawConfig h)
  end.

(** [ClientConfig]. *)
Definition ClientConfig : M (option addr * option error) :=
  '(mergedClientConfig, err) ← createClientConfig;
  match err with
  | Some e => ret (None, Some e)
  | None =>
      h ← deref mergedClientConfig;
      '(mergedConfig, err) ← call EvMergedClientConfig (cc_ClientConfig h);
      (* the switch: [Some r] when one of its cases returns [r] *)
      returned ←
        match err, mergedConfig with
        | Some e, _ =>
            if negb (IsEmptyConfig e) then ret (Some (None, Some e))
            else ret None
        | None, Some _ =>
            config ← get_self;
            l ← deref (loader config);
            isDefault ← call EvIsDefaultConfig (IsDefaultConfig l mergedConfig);
            if negb isDefault then ret (Some (mergedConfig, None))
            else ret None
        | None, None => ret None
        end;
      match returned with
      | Some r => ret r
      | None =>
          config ← get_self;
          d ← deref (icc config);
          possible ← call EvPossible (Possible d);
          if possible then
            glog_Infof "Using in-cluster configuration";;
            call EvInClusterClientConfig (cc_ClientConfig d)
          else
            set_Impersonate_UserName mergedConfig (user config);;
            set_Impersonate_Groups mergedConfig (groups config);;
            ret (mergedConfig, err)
      end
  end.

(** [err != nil && !clientcmd.IsEmptyConfig(err)]: an error other than the
    empty-configuration one. *)
Definition hard_error (err : option error) : bool :=
  match err with
  | Some e => negb (IsEmptyConfig e)
  | None => false
  end.

(** The condition of the first [if] of [Namespace]; [||] evaluates its right
    operand only when the left one is false. *)
Definition Namespace_returns_immediately (err : option error) (overridden : bool)
    : M bool :=
  if hard_error err then ret true
  else if overridden then ret true
  else
    config ← get_self;
    d ← deref (icc config);
    possible ← call EvPossible (Possible d);
    ret (negb possible).

(** [context != nil && len(context.Namespace) > 0] for
    [context := raw.Contexts[raw.CurrentContext]]. *)
Definition context_sets_namespace (raw : clientcmdapi_Config) : bool :=
  match Contexts raw !! CurrentContext raw with
  | Some (Some context) => negb (String.eqb (ctx_Namespace context) "")
  | Some None | None => false
  end.

(** [Namespace]. *)
Definition Namespace : M (string * bool * option error) :=
  '(mergedKubeConfig, err) ← createClientConfig;
  match err with
  | Some e => ret ("", false, Some e)
  | None =>
      h ← deref mergedKubeConfig;
      '(ns, overridden, err) ← call EvMergedNamespace (cc_Namespace h);
      immediately ← Namespace_returns_immediately err overridden;
      if immediately then ret (ns, overridden, err)
      else
        (* [Some r] when the block under [len(ns) > 0] returns [r] *)
        returned ←
          (if negb (String.eqb ns "") then
             if negb (String.eqb ns v1_NamespaceDefault) then
               ret (Some (ns, false, None))
             else
               '(raw, err) ← call EvMergedRawConfig (cc_RawConfig h);
               match err with
               | None =>
                   if context_sets_namespace raw then ret (Some (ns, false, None))
                   else ret None
               | Some _ => ret None
               end
           else ret None);
        match returned with
        | Some r => ret r
        | None =>
            glog_Infof "Using in-cluster namespace";;
            config ← get_self;
            d ← deref (icc config);
            call EvInClusterNamespace (cc_Namespace d)
        end
  end.

(** [ConfigAccess]: the loader itself. *)
Definition ConfigAccess (config : DeferredLoadingClientConfig)
    : option clientcmd_ClientConfigLoader :=
  loader config.

End methods.

(** ** Sequences of calls *)

Section runs.
Context {Imp : Imports} {Cmd : Clientcmd}.

(** The state a call leaves behind: none when it blocks. *)
Definition outcome_state {A} (o : Outcome A) : option State :=
  match o with
  | Ret _ s | Panic s => Some s
  | Blocked => None
  end.

(** The methods that resolve the merged configuration. *)
Inductive method := MCreateClientConfig | MRawConfig | MClientConfig | MNamespace.

Definition invoke (m : method) : M unit :=
  match m with
  | MCreateClientConfig => _ ← createClientConfig; ret tt
  | MRawConfig => _ ← RawConfig; ret tt
  | MClientConfig => _ ← ClientConfig; ret tt
  | MNamespace => _ ← Namespace; ret tt
  end.

(** The state after a call of [m]; the state before when the call blocks. *)
Definition state_after (m : method) (s : State) : State :=
  default s (outcome_state (invoke m s)).

(** One step in the life of a receiver: a method is called on it and returns
    or panics (the caller may recover), or the world changes between two
    calls. *)
Inductive step : State → State → Prop :=
  | step_call m s s' : outcome_state (invoke m s) = Some s' → step s s'
  | step_world s w : step s (with_world w s).

(** A receiver that no method has been called on yet. *)
Definition fresh (config : DeferredLoadingClientConfig) (w : World) : State :=
  {| self := config; world := w; trace := [] |}.

(** The calls a receiver in state [config] can make: [Load] and the two
    constructors only while nothing is cached, the interactive constructor
    only with a fallback reader, the detector only when there is one. *)
Definition allowed (config : DeferredLoadingClientConfig) (e : event) : bool :=
  match e with
  | EvLoad | EvNewNonInteractiveClientConfig =>
      bool_decide (clientConfig config = None)
  | EvNewInteractiveClientConfig =>
      bool_decide (clientConfig config = None) && bool_decide (is_Some (fallbackReader config))
  | EvPossible | EvInClusterClientConfig | EvInClusterNamespace =>
      bool_decide (is_Some (icc config))
  | _ => true
  end.

(** The fields no method assigns. *)
Definition same_fields (c c' : DeferredLoadingClientConfig) : Prop :=
  loader c' = loader c ∧ overrides c' = overrides c ∧
  fallbackReader c' = fallbackReader c ∧ user c' = user c ∧
  groups c' = groups c ∧ icc c' = icc c ∧ loadingLock c' = loadingLock c.

(** The handle [createClientConfig] builds for [config]. *)
Definition built_by (config : DeferredLoadingClientConfig)
    (h : clientcmd_ClientConfig) : Prop :=
  ∃ cfg ov l, loader config = Some l ∧ overrides config = Some ov ∧
    h = match fallbackReader config with
        | Some rd => NewInteractiveClientConfig cfg (ov_CurrentContext ov) ov rd l
        | None => NewNonInteractiveClientConfig cfg (ov_CurrentContext ov) ov l
        end.

(** What every call guarantees of the state it leaves: the fields are kept,
    a cached handle is kept, a handle cached by the call was built by
    [createClientConfig], and the trace grows by allowed calls. *)
Definition frame (s s' : State) : Prop :=
  same_fields (self s) (self s') ∧
  (∀ h, clientConfig (self s) = Some h → clientConfig (self s') = Some h) ∧
  (∀ h, clientConfig (self s) = None → clientConfig (self s') = Some h →
        built_by (self s) h) ∧
  ∃ evs, trace s' = trace s ++ evs ∧ Forall (λ e, allowed (self s) e = true) evs.

(** ** The branches of [ClientConfig] *)

(** The merged configuration [mc] with error [err] passes the switch of
    [ClientConfig] without returning: the error is the empty-configuration one,
    or there is no error and either no configuration or one that the loader
    calls the default.  [w'] is the world and [evs] the calls after the
    switch. *)
Inductive falls_through (l : option clientcmd_ClientConfigLoader) (w : World)
    : option addr → option error → World → list event → Prop :=
  | falls_empty mc e :
      IsEmptyConfig e = true → falls_through l w mc (Some e) w []
  | falls_nil :
      falls_through l w None None w []
  | falls_default p l0 w' :
      l = Some l0 → IsDefaultConfig l0 (Some p) w = (true, w') →
      falls_through l w (Some p) None w' [EvIsDefaultConfig].

(** The receiver with another impersonation identity. *)
Definition state_with_identity (u : string) (g : list string) (s : State) : State :=
  with_self (with_identity u g (self s)) s.

Definition outcome_with_identity {A} (u : string) (g : list string)
    (o : Outcome A) : Outcome A :=
  match o with
  | Ret a s => Ret a (state_with_identity u g s)
  | Panic s => Panic (state_with_identity u g s)
  | Blocked => Blocked
  end.

(** [ClientConfig] reaches its last lines: the merged configuration is
    resolved, its client configuration at address [p] passes the switch, and
    the detector [d] says that in-cluster configuration is not possible. *)
Definition final_branch (s s1 : State) (p : addr) (err : option error)
    (w4 : World) (evs : list event) : Prop :=
  ∃ h w2 w3 d,
    createClientConfig s = Ret (Some h, None) s1 ∧
    cc_ClientConfig h (world s1) = ((Some p, err), w2) ∧
    falls_through (loader (self s)) w2 (Some p) err w3 evs ∧
    icc (self s) = Some d ∧ Possible d w3 = (false, w4).

(** The configuration at [p] after the two assignments. *)
Definition impersonated (config : DeferredLoadingClientConfig) (p : addr)
    (c : restclient_Config) (w : World) : World :=
  with_heap (<[p := with_Groups (groups config) (with_UserName (user config) c)]> (heap w)) w.

(** ** The last lines of [Namespace] *)

(** The namespace [ns] retrieved from the merged configuration [h] is not an
    explicit choice, so [Namespace] goes on to the detector: it is empty, or
    it is the default namespace and either the raw configuration cannot be
    read or its current context names no namespace.  [w'] is the world and
    [evs] the calls after the check. *)
Inductive namespace_is_implicit (h : clientcmd_ClientConfig) (w : World)
    : string → World → list event → Prop :=
  | implicit_empty :
      namespace_is_implicit h w "" w []
  | implicit_raw_error raw e w' :
      cc_RawConfig h w = ((raw, Some e), w') →
      namespace_is_implicit h w v1_NamespaceDefault w' [EvMergedRawConfig]
  | implicit_no_namespace raw w' :
      cc_RawConfig h w = ((raw, None), w') →
      context_sets_namespace raw = false →
      namespace_is_implicit h w v1_NamespaceDefault w' [EvMergedRawConfig].

(** 1 with a handle cached, 0 without. *)
Definition cached (config : DeferredLoadingClientConfig) : nat :=
  match clientConfig config with
  | Some _ => 1
  | None => 0
  end.

End runs.

(** ** Test doubles

    Collaborators in the style of the fakes a Go test of this package would
    inject, used to run the methods on concrete receivers. *)

Inductive test_error := ErrEmptyConfig | ErrInvalidConfig.

(** The world outside is a count of the failed reads of the configuration
    file; the fields of a [restclient.Config] are reduced to its host. *)
Definition test_imports : Imports :=
  {| Env := nat; error := test_error; io_Reader := unit; restclient_Fields := string |}.

Section doubles.
Local Existing Instance test_imports.

Definition test_config (host : string) : restclient_Config :=
  {| Impersonate := {| UserName := ""; Groups := []; Extra := ∅ |};
     rest_fields := host |}.

(** Address 1 holds the configuration of the kubeconfig file, address 2 the
    in-cluster one. *)
Definition test_world : World :=
  {| heap := {[ 1%positive := test_config "https://kube.example";
                2%positive := test_config "https://10.0.0.1" ]};
     env := 0 |}.

(** A kubeconfig with one context, which names the namespace [ns]. *)
Definition kubeconfig (ns : string) : clientcmdapi_Config :=
  {| CurrentContext := "dev";
     Contexts := {[ "dev" := Some {| ctx_Cluster := "c"; ctx_AuthInfo := "u";
                                     ctx_Namespace := ns |} ]} |}.

(** An empty kubeconfig. *)
Definition no_kubeconfig : clientcmdapi_Config :=
  {| CurrentContext := ""; Contexts := ∅ |}.

(** A merged configuration as client-go builds it: without contexts it answers
    every query with the empty-configuration error and no result. *)
Definition direct_client_config (cfg : clientcmdapi_Config) : clientcmd_ClientConfig :=
  {| cc_RawConfig := λ w, ((cfg, None), w);
     cc_ClientConfig := λ w,
       if decide (Contexts cfg = ∅) then ((None, Some ErrEmptyConfig), w)
       else ((Some 1%positive, None), w);
     cc_Namespace := λ w,
       if decide (Contexts cfg = ∅) then (("", false, Some ErrEmptyConfig), w)
       else match Contexts cfg !! CurrentContext cfg with
            | Some (Some context) =>
                if decide (ctx_Namespace context = "")
                then ((v1_NamespaceDefault, false, None), w)
                else ((ctx_Namespace context, false, None), w)
            | _ => ((v1_NamespaceDefault, false, None), w)
            end |}.

(** A merged configuration that reports the default namespace together with
    the empty-configuration error. *)
Definition lenient_client_config (cfg : clientcmdapi_Config) : clientcmd_ClientConfig :=
  {| cc_RawConfig := λ w, ((cfg, None), w);
     cc_ClientConfig := λ w, ((None, Some ErrEmptyConfig), w);
     cc_Namespace := λ w, ((v1_NamespaceDefault, false, Some ErrEmptyConfig), w) |}.

(** client-go with both constructors building [build cfg]. *)
Definition test_clientcmd (build : clientcmdapi_Config → clientcmd_ClientConfig)
    : Clientcmd :=
  {| IsEmptyConfig e := match e with ErrEmptyConfig => true | ErrInvalidConfig => false end;
     NewInteractiveClientConfig cfg _ _ _ _ := build cfg;
     NewNonInteractiveClientConfig cfg _ _ _ := build cfg |}.

(** A loader that returns [cfg] and calls every configuration the default, or
    none, according to [isDefault]. *)
Definition file_loader (cfg : clientcmdapi_Config) (isDefault : bool)
    : clientcmd_ClientConfigLoader :=
  {| Load := λ w, ((Some cfg, None), w);
     IsDefaultConfig _ := λ w, (isDefault, w) |}.

(** A loader whose first read fails. *)
Definition flaky_loader (cfg : clientcmdapi_Config) : clientcmd_ClientConfigLoader :=
  {| Load := λ w,
       match env w with
       | 0 => ((None, Some ErrInvalidConfig), {| heap := heap w; env := S (env w) |})
       | S _ => ((Some cfg, None), w)
       end;
     IsDefaultConfig _ := λ w, (false, w) |}.

(** An in-cluster detector with a fixed answer. *)
Definition detector (possible : bool) : InClusterConfig :=
  {| icc_ClientConfig :=
       {| cc_RawConfig := λ w, ((no_kubeconfig, None), w);
          cc_ClientConfig := λ w, ((Some 2%positive, None), w);
          cc_Namespace := λ w, (("kube-system", false, None), w) |};
     Possible := λ w, (possible, w) |}.

Definition no_overrides : clientcmd_ConfigOverrides :=
  {| ov_CurrentContext := "";
     ov_Context := {| ctx_Cluster := ""; ctx_AuthInfo := ""; ctx_Namespace := "" |} |}.

(** A receiver as a test of the package builds it: the result of the
    constructor with the detector filled in. *)
Definition test_receiver (l : clientcmd_ClientConfigLoader)
    (d : option InClusterConfig) : DeferredLoadingClientConfig :=
  {| loader := Some l; overrides := Some no_overrides; fallbackReader := None;
     user := "alice"; groups := ["dev"; "ops"];
     clientConfig := None; loadingLock := false; icc := d |}.

(** client-go building merged configurations of one kind or the other. *)
Definition direct : Clientcmd := test_clientcmd direct_client_config.
Definition lenient : Clientcmd := test_clientcmd lenient_client_config.

(** The receivers the methods are run on below: with a kubeconfig that names
    the default namespace, with no kubeconfig, with a configuration file that
    cannot be read at first, and as the constructor builds one. *)
Definition kube_state (isDefault possible : bool) : State :=
  fresh (test_receiver (file_loader (kubeconfig "default") isDefault)
           (Some (detector possible))) test_world.

Definition empty_state (possible : bool) : State :=
  fresh (test_receiver (file_loader no_kubeconfig true) (Some (detector possible)))
    test_world.

Definition flaky_state : State :=
  fresh (test_receiver (flaky_loader (kubeconfig "default")) (Some (detector false)))
    test_world.

Definition constructed_state (cfg : clientcmdapi_Config) : State :=
  fresh (NewImpersonationClientConfig (Some (file_loader cfg true))
           (Some no_overrides) "alice" ["dev"; "ops"]) test_world.

(** A merged configuration of a kubeconfig that cannot be used: every query
    fails with an error other than the empty-configuration one. *)
Definition invalid_client_config (cfg : clientcmdapi_Config) : clientcmd_ClientConfig :=
  {| cc_RawConfig := λ w, ((cfg, Some ErrInvalidConfig), w);
     cc_ClientConfig := λ w, ((Some 1%positive, Some ErrInvalidConfig), w);
     cc_Namespace := λ w, (("", false, Some ErrInvalidConfig), w) |}.

Definition invalid : Clientcmd := test_clientcmd invalid_client_config.

(** A loader that returns neither a configuration nor an error. *)
Definition null_loader : clientcmd_ClientConfigLoader :=
  {| Load := λ w, ((None, None), w);
     IsDefaultConfig _ := λ w, (true, w) |}.

Definition null_state : State :=
  fresh (test_receiver null_loader (Some (detector true))) test_world.

(** A receiver whose kubeconfig names the namespace [ns] in its context. *)
Definition namespace_state (ns : string) (possible : bool) : State :=
  fresh (test_receiver (file_loader (kubeconfig ns) true) (Some (detector possible)))
    test_world.

End doubles.

(** * Properties *)

(** Unfolds the running of a method down to its calls. *)
Ltac run :=
  unfold bind, ret, panic, get_self, call, construct, glog_Infof, deref,
    set_clientConfig, Lock, Unlock, defer, read, write,
    with_self, with_world in *; simpl in *.

(** Runs a method symbolically: takes the innermost value that decides the
    next step (a nil check, the results of a call) and splits on it. *)
Ltac split_next :=
  match goal with
  | |- context [match ?x with _ => _ end] =>
      lazymatch x with
      | context [match _ with _ => _ end] => fail
      | _ => destruct x eqn:?; simplify_eq/=
      end
  end.

Section properties.
Context {Imp : Imports} {Cmd : Clientcmd}.

(** ** The frame of a call *)

Lemma same_fields_refl c : same_fields c c.
Proof. by repeat split. Qed.

Lemma same_fields_trans c1 c2 c3 :
  same_fields c1 c2 → same_fields c2 c3 → same_fields c1 c3.
Proof.
  intros (?&?&?&?&?&?&?) (?&?&?&?&?&?&?).
  repeat split; congruence.
Qed.

Lemma allowed_mono c c' e :
  same_fields c c' →
  (∀ h, clientConfig c = Some h → clientConfig c' = Some h) →
  allowed c' e = true → allowed c e = true.
Proof.
  intros (_&_&Hrd&_&_&Hicc&_) Hkeep.
  assert (clientConfig c' = None → clientConfig c = None) as Hnone.
  { intros Hc'. destruct (clientConfig c) as [h|] eqn:Hc; [|done].
    specialize (Hkeep h eq_refl). congruence. }
  destruct e; simpl; rewrite ?Hrd, ?Hicc; try done.
  - rewrite !bool_decide_eq_true. auto.
  - rewrite !andb_true_iff, !bool_decide_eq_true. intros [? ?]. auto.
  - rewrite !bool_decide_eq_true. auto.
Qed.

Lemma built_by_same c c' h : same_fields c c' → built_by c' h → built_by c h.
Proof.
  intros (Hl&Ho&Hrd&_) (cfg&ov&l&?&?&?).
  exists cfg, ov, l. rewrite <- Hl, <- Ho, <- Hrd. done.
Qed.

Lemma frame_refl s : frame s s.
Proof.
  split; [apply same_fields_refl|]. split; [done|]. split; [congruence|].
  exists []. by rewrite app_nil_r.
Qed.

Lemma frame_trans s1 s2 s3 : frame s1 s2 → frame s2 s3 → frame s1 s3.
Proof.
  intros (Hf1&Hk1&Hb1&evs1&Ht1&Ha1) (Hf2&Hk2&Hb2&evs2&Ht2&Ha2).
  split; [by eapply same_fields_trans|]. split; [by auto|]. split.
  - intros h Hnone Hsome.
    destruct (clientConfig (self s2)) as [h2|] eqn:Hc2.
    + specialize (Hk2 h2 eq_refl). assert (h2 = h) as -> by congruence. by apply Hb1.
    + eapply built_by_same; [done|]. by apply Hb2.
  - exists (evs1 ++ evs2). split; [by rewrite Ht2, Ht1, app_assoc|].
    apply Forall_app. split; [done|].
    eapply Forall_impl; [done|]. intros e. by apply allowed_mono.
Qed.

(** A call that leaves the receiver as it is and makes allowed calls. *)
Lemma frame_same_self s s' evs :
  self s' = self s → trace s' = trace s ++ evs →
  Forall (λ e, allowed (self s) e = true) evs → frame s s'.
Proof.
  intros Hself Ht Ha. unfold frame. rewrite Hself.
  split; [apply same_fields_refl|]. split; [done|]. split; [congruence|]. eauto.
Qed.

(** ** [createClientConfig] *)

(** With a cached handle, nothing happens. *)
Lemma createClientConfig_cached s h :
  clientConfig (self s) = Some h →
  createClientConfig s = Ret (Some h, None) s.
Proof. intros Hc. unfold createClientConfig. run. by rewrite Hc. Qed.

(** With nothing cached and the mutex held, the call waits. *)
Lemma createClientConfig_blocked s :
  clientConfig (self s) = None → loadingLock (self s) = true →
  createClientConfig s = Blocked.
Proof. intros Hc Hl. unfold createClientConfig. run. by rewrite Hc, Hl. Qed.

Lemma unlock_lock c :
  loadingLock c = false → with_loadingLock false (with_loadingLock true c) = c.
Proof. destruct c; simpl. by intros ->. Qed.

(** A failed load: the error comes back and the receiver is as before. *)
Lemma createClientConfig_load_error s l mc e w' :
  clientConfig (self s) = None → loadingLock (self s) = false →
  loader (self s) = Some l →
  Load l (world s) = ((mc, Some e), w') →
  createClientConfig s =
    Ret (None, Some e) {| self := self s; world := w'; trace := trace s ++ [EvLoad] |}.
Proof.
  intros Hc Hlock Hl Hload. unfold createClientConfig. run.
  rewrite Hc, Hlock; simpl. rewrite Hc, Hl; simpl. rewrite Hload; simpl.
  by rewrite unlock_lock.
Qed.

(** A successful load: the handle is built, cached and returned. *)
Lemma createClientConfig_load_ok s l cfg ov w' :
  clientConfig (self s) = None → loadingLock (self s) = false →
  loader (self s) = Some l →
  Load l (world s) = ((Some cfg, None), w') →
  overrides (self s) = Some ov →
  createClientConfig s =
    match fallbackReader (self s) with
    | Some rd =>
        let h := NewInteractiveClientConfig cfg (ov_CurrentContext ov) ov rd l in
        Ret (Some h, None)
          {| self := with_clientConfig (Some h) (self s); world := w';
             trace := trace s ++ [EvLoad; EvNewInteractiveClientConfig] |}
    | None =>
        let h := NewNonInteractiveClientConfig cfg (ov_CurrentContext ov) ov l in
        Ret (Some h, None)
          {| self := with_clientConfig (Some h) (self s); world := w';
             trace := trace s ++ [EvLoad; EvNewNonInteractiveClientConfig] |}
    end.
Proof.
  intros Hc Hlock Hl Hload Hov. unfold createClientConfig. run.
  rewrite Hc, Hlock; simpl. rewrite Hc, Hl; simpl. rewrite Hload; simpl.
  rewrite Hov; simpl.
  destruct (self s) as [? ? rd ? ? ? ? ?]; simpl in *; subst.
  destruct rd; simpl; by rewrite <- app_assoc.
Qed.


(** Whatever [createClientConfig] does, it keeps the fields and a cached
    handle, caches only what it built, and calls nothing but [Load] and a
    constructor, and these only with nothing cached. *)
Lemma createClientConfig_frame s s' :
  outcome_state (createClientConfig s) = Some s' → frame s s'.
Proof.
  destruct (clientConfig (self s)) as [h|] eqn:Hc.
  { rewrite (createClientConfig_cached s h Hc). intros [= <-]. apply frame_refl. }
  destruct s as [c w t]. destruct c as [ol oov ord u g cc lk oicc].
  simpl in Hc. subst cc. unfold createClientConfig. run.
  destruct lk; simpl; [done|].
  destruct ol as [l|]; simpl; [|intros [= <-]].
  - destruct (Load l w) as [[mc [e|]] w'] eqn:Hload; simpl.
    { intros [= <-]. split; [by repeat split|]. split; [done|]. split; [done|].
      exists [EvLoad]. split; [done|]. by repeat constructor. }
    destruct mc as [cfg|]; simpl; [destruct oov as [ov|]; simpl|].
    + destruct ord as [rd|]; simpl; intros [= <-].
      all: split; [by repeat split|]; split; [done|]; split;
        [intros h _ [= <-]; by exists cfg, ov, l|].
      all: eexists [EvLoad; _]; split; [by rewrite <- app_assoc|];
        by repeat constructor.
    + intros [= <-]. split; [by repeat split|]. split; [done|]. split; [done|].
      exists [EvLoad]. split; [done|]. by repeat constructor.
    + intros [= <-]. split; [by repeat split|]. split; [done|]. split; [done|].
      exists [EvLoad]. split; [done|]. by repeat constructor.
  - split; [by repeat split|]. split; [done|]. split; [done|].
    exists []. split; [by rewrite app_nil_r|]. constructor.
Qed.

(** What [createClientConfig] returns: the cached handle and no error, or no
    handle, an error and nothing cached. *)
Lemma createClientConfig_returns s r s' :
  createClientConfig s = Ret r s' →
  (∃ h, r = (Some h, None) ∧ clientConfig (self s') = Some h) ∨
  (∃ e, r = (None, Some e) ∧ clientConfig (self s) = None ∧ self s' = self s).
Proof.
  destruct (clientConfig (self s)) as [h|] eqn:Hc.
  { rewrite (createClientConfig_cached s h Hc). intros [= <- <-]. left. eauto. }
  destruct s as [c w t]. destruct c as [ol oov ord u g cc lk oicc].
  simpl in Hc. subst cc. unfold createClientConfig. run.
  destruct lk; simpl; [done|].
  destruct ol as [l|]; simpl; [|done].
  destruct (Load l w) as [[mc [e|]] w'] eqn:Hload; simpl.
  { intros [= <- <-]. right. eauto. }
  destruct mc as [cfg|]; simpl; [|done].
  destruct oov as [ov|]; simpl; [|done].
  destruct ord as [rd|]; simpl; intros [= <- <-]; left; eauto.
Qed.


(** ** The frame of the other methods *)

Lemma bind_run {A B} (m : M A) (k : A → M B) s :
  bind m k s =
  match m s with
  | Ret a s' => k a s'
  | Panic s' => Panic s'
  | Blocked => Blocked
  end.
Proof. reflexivity. Qed.

Lemma outcome_state_bind {A B} (m : M A) (k : A → M B) s s' :
  outcome_state (bind m k s) = Some s' →
  m s = Panic s' ∨ ∃ a s1, m s = Ret a s1 ∧ outcome_state (k a s1) = Some s'.
Proof.
  unfold bind. destruct (m s) as [a s1| s1|]; simpl; [eauto| |done].
  intros [= ->]. by left.
Qed.

(** The calls made after the merged configuration is resolved leave the
    receiver alone. *)
Ltac frame_after_resolution :=
  repeat split_next; try done; intros; simplify_eq/=;
  first
    [ apply frame_refl
    | eapply frame_same_self;
      [ reflexivity
      | simpl; rewrite <- ?app_assoc; reflexivity
      | repeat constructor; simpl; by rewrite ?bool_decide_eq_true ] ].

Lemma ClientConfig_frame s s' :
  outcome_state (ClientConfig s) = Some s' → frame s s'.
Proof.
  unfold ClientConfig. intros Ho.
  apply outcome_state_bind in Ho as [Hp|([oh oe]&s1&Hr&Ho)].
  { apply createClientConfig_frame. by rewrite Hp. }
  eapply frame_trans; [apply createClientConfig_frame; by rewrite Hr|].
  clear Hr. revert Ho. destruct s1 as [[ol oov ord u g cc lk oicc] w1 t1].
  unfold set_Impersonate_UserName, set_Impersonate_Groups. run.
  frame_after_resolution.
Qed.

Lemma Namespace_frame s s' :
  outcome_state (Namespace s) = Some s' → frame s s'.
Proof.
  unfold Namespace. intros Ho.
  apply outcome_state_bind in Ho as [Hp|([oh oe]&s1&Hr&Ho)].
  { apply createClientConfig_frame. by rewrite Hp. }
  eapply frame_trans; [apply createClientConfig_frame; by rewrite Hr|].
  clear Hr. revert Ho. destruct s1 as [[ol oov ord u g cc lk oicc] w1 t1].
  unfold Namespace_returns_immediately. run.
  frame_after_resolution.
Qed.

Lemma RawConfig_frame s s' :
  outcome_state (RawConfig s) = Some s' → frame s s'.
Proof.
  unfold RawConfig. intros Ho.
  apply outcome_state_bind in Ho as [Hp|([oh oe]&s1&Hr&Ho)].
  { apply createClientConfig_frame. by rewrite Hp. }
  eapply frame_trans; [apply createClientConfig_frame; by rewrite Hr|].
  clear Hr. revert Ho. destruct s1 as [[ol oov ord u g cc lk oicc] w1 t1].
  run. frame_after_resolution.
Qed.

(** ** Sequences of calls *)

Lemma invoke_frame m s s' :
  outcome_state (invoke m s) = Some s' → frame s s'.
Proof.
  destruct m; simpl; intros Ho.
  all: apply outcome_state_bind in Ho as [Hp|(a&s1&Hr&Ho)];
    [|simpl in Ho; injection Ho as <-].
  - apply createClientConfig_frame. by rewrite Hp.
  - apply createClientConfig_frame. by rewrite Hr.
  - apply RawConfig_frame. by rewrite Hp.
  - apply RawConfig_frame. by rewrite Hr.
  - apply ClientConfig_frame. by rewrite Hp.
  - apply ClientConfig_frame. by rewrite Hr.
  - apply Namespace_frame. by rewrite Hp.
  - apply Namespace_frame. by rewrite Hr.
Qed.

Lemma step_frame s s' : step s s' → frame s s'.
Proof.
  intros [m s1 s2 Ho|s1 w]; [by eapply invoke_frame|].
  by apply (frame_same_self _ _ []); [| rewrite app_nil_r|].
Qed.

Lemma steps_frame s s' : rtc step s s' → frame s s'.
Proof.
  induction 1 as [|s1 s2 s3 Hstep _ IH]; [apply frame_refl|].
  eapply frame_trans; [by apply step_frame|done].
Qed.


(** [createClientConfig] calls the loader and a constructor, nothing else. *)
Lemma createClientConfig_trace s s' :
  outcome_state (createClientConfig s) = Some s' →
  ∃ evs, trace s' = trace s ++ evs ∧ Forall (λ e, resolution_event e = true) evs.
Proof.
  destruct (clientConfig (self s)) as [h|] eqn:Hc.
  { rewrite (createClientConfig_cached s h Hc). intros [= <-].
    exists []. by rewrite app_nil_r. }
  destruct s as [[ol oov ord u g cc lk oicc] w t].
  simpl in Hc. subst cc. unfold createClientConfig. run.
  repeat split_next; try done; intros; simplify_eq/=.
  all: first [ exists []; by rewrite app_nil_r
             | eexists; split; [rewrite <- ?app_assoc; reflexivity|];
               by repeat constructor ].
Qed.

Lemma resolution_not_icc evs :
  Forall (λ e, resolution_event e = true) evs →
  Forall (λ e, icc_event e = false) evs.
Proof. intros Hevs. eapply Forall_impl; [done|]. by intros []. Qed.

(** ** [ClientConfig] *)

(** C1. When the merged configuration is resolved, its client configuration is
    retrieved without error at a non-nil address, and the loader says it is
    not the default, [ClientConfig] returns that address and no error.  The
    calls it makes after resolving are [ClientConfig] on the merged
    configuration and [IsDefaultConfig]; none of its calls is on the
    in-cluster detector, whatever the detector is. *)
Theorem ClientConfig_explicit_config s h s1 p w2 l w3 :
  createClientConfig s = Ret (Some h, None) s1 →
  cc_ClientConfig h (world s1) = ((Some p, None), w2) →
  loader (self s) = Some l →
  IsDefaultConfig l (Some p) w2 = (false, w3) →
  ClientConfig s =
    Ret (Some p, None)
      {| self := self s1; world := w3;
         trace := trace s1 ++ [EvMergedClientConfig; EvIsDefaultConfig] |} ∧
  ∃ evs, trace s1 ++ [EvMergedClientConfig; EvIsDefaultConfig] = trace s ++ evs ∧
         Forall (λ e, icc_event e = false) evs.
Proof.
  intros Hcreate Hcc Hl Hdefault.
  assert (frame s s1) as ((Hl1&_)&_) by (apply createClientConfig_frame; by rewrite Hcreate).
  split.
  - unfold ClientConfig, bind at 1. rewrite Hcreate. run.
    rewrite Hcc; simpl. rewrite Hl1, Hl; simpl. rewrite Hdefault; simpl.
    by rewrite <- app_assoc.
  - destruct (createClientConfig_trace s s1) as (evs&->&Hevs); [by rewrite Hcreate|].
    exists (evs ++ [EvMergedClientConfig; EvIsDefaultConfig]).
    split; [by rewrite app_assoc|].
    apply Forall_app; split; [by apply resolution_not_icc|by repeat constructor].
Qed.

(** C2. When the merged configuration is resolved and its client configuration
    passes the switch (empty-configuration error, nil result, or a result the
    loader calls the default), and the detector says in-cluster configuration
    is possible, [ClientConfig] returns what the detector's [ClientConfig]
    returns. *)
Theorem ClientConfig_in_cluster_fallback s h s1 mc err w2 w3 evs d w4 :
  createClientConfig s = Ret (Some h, None) s1 →
  cc_ClientConfig h (world s1) = ((mc, err), w2) →
  falls_through (loader (self s)) w2 mc err w3 evs →
  icc (self s) = Some d →
  Possible d w3 = (true, w4) →
  ClientConfig s =
    Ret (cc_ClientConfig d w4).1
      {| self := self s1; world := (cc_ClientConfig d w4).2;
         trace := trace s1 ++ EvMergedClientConfig :: evs ++
                  [EvPossible; EvLog "Using in-cluster configuration";
                   EvInClusterClientConfig] |}.
Proof.
  intros Hcreate Hcc Hfalls Hicc Hpossible.
  assert (frame s s1) as ((Hl1&_&_&_&_&Hicc1&_)&_)
    by (apply createClientConfig_frame; by rewrite Hcreate).
  unfold ClientConfig, bind at 1. rewrite Hcreate. run.
  rewrite Hcc; simpl.
  destruct Hfalls as [mc e Hempty| |p l0 w3 Hl Hdefault]; simpl.
  - rewrite Hempty; simpl. rewrite Hicc1, Hicc; simpl. rewrite Hpossible; simpl.
    destruct (cc_ClientConfig d w4) as [r w5]; simpl.
    by rewrite <- !app_assoc.
  - rewrite Hicc1, Hicc; simpl. rewrite Hpossible; simpl.
    destruct (cc_ClientConfig d w4) as [r w5]; simpl.
    by rewrite <- !app_assoc.
  - rewrite Hl1, Hl; simpl. rewrite Hdefault; simpl.
    rewrite Hicc1, Hicc; simpl. rewrite Hpossible; simpl.
    destruct (cc_ClientConfig d w4) as [r w5]; simpl.
    by rewrite <- !app_assoc.
Qed.


(** The impersonation identity plays no part in resolving the merged
    configuration. *)
Lemma createClientConfig_identity u g s :
  createClientConfig (state_with_identity u g s) =
  outcome_with_identity u g (createClientConfig s).
Proof.
  destruct s as [[ol oov ord u0 g0 cc lk oicc] w t].
  unfold createClientConfig, state_with_identity. run.
  repeat split_next; done.
Qed.

(** C3. The impersonation identity reaches a returned configuration on the
    last branch of [ClientConfig] and nowhere else.  With another identity
    [u], [g] stored in the receiver: (1) on the explicit-configuration branch
    and (2) on the in-cluster branch the result, the world and the trace are
    the same; (3) on the last branch the configuration at the returned address
    carries the receiver's identity; (4) whenever the identity makes a
    difference to what [ClientConfig] does, the call is on the last branch. *)
Theorem ClientConfig_identity_scope s u g :
  (∀ h s1 p w2 l w3,
     createClientConfig s = Ret (Some h, None) s1 →
     cc_ClientConfig h (world s1) = ((Some p, None), w2) →
     loader (self s) = Some l →
     IsDefaultConfig l (Some p) w2 = (false, w3) →
     ClientConfig (state_with_identity u g s) =
       Ret (Some p, None)
         {| self := with_identity u g (self s1); world := w3;
            trace := trace s1 ++ [EvMergedClientConfig; EvIsDefaultConfig] |}) ∧
  (∀ h s1 mc err w2 w3 evs d w4,
     createClientConfig s = Ret (Some h, None) s1 →
     cc_ClientConfig h (world s1) = ((mc, err), w2) →
     falls_through (loader (self s)) w2 mc err w3 evs →
     icc (self s) = Some d →
     Possible d w3 = (true, w4) →
     ClientConfig (state_with_identity u g s) =
       Ret (cc_ClientConfig d w4).1
         {| self := with_identity u g (self s1); world := (cc_ClientConfig d w4).2;
            trace := trace s1 ++ EvMergedClientConfig :: evs ++
                     [EvPossible; EvLog "Using in-cluster configuration";
                      EvInClusterClientConfig] |}) ∧
  (∀ s1 p err w4 evs c,
     final_branch s s1 p err w4 evs →
     heap w4 !! p = Some c →
     ClientConfig s =
       Ret (Some p, err)
         {| self := self s1; world := impersonated (self s) p c w4;
            trace := trace s1 ++ EvMergedClientConfig :: evs ++ [EvPossible] |}) ∧
  (ClientConfig (state_with_identity u g s) =
     outcome_with_identity u g (ClientConfig s) ∨
   ∃ s1 p err w4 evs c, final_branch s s1 p err w4 evs ∧ heap w4 !! p = Some c).
Proof.
  split; [|split; [|split]].
  - intros h s1 p w2 l w3 Hcreate Hcc Hl Hdefault.
    assert (frame s s1) as ((Hl1&_)&_)
      by (apply createClientConfig_frame; by rewrite Hcreate).
    unfold ClientConfig, bind at 1.
    rewrite createClientConfig_identity, Hcreate. run.
    rewrite Hcc; simpl. rewrite Hl1, Hl; simpl. rewrite Hdefault; simpl.
    by rewrite <- app_assoc.
  - intros h s1 mc err w2 w3 evs d w4 Hcreate Hcc Hfalls Hicc Hpossible.
    assert (frame s s1) as ((Hl1&_&_&_&_&Hicc1&_)&_)
      by (apply createClientConfig_frame; by rewrite Hcreate).
    unfold ClientConfig, bind at 1.
    rewrite createClientConfig_identity, Hcreate. run.
    rewrite Hcc; simpl.
    destruct Hfalls as [mc e Hempty| |p l0 w3 Hl Hdefault]; simpl.
    + rewrite Hempty; simpl. rewrite Hicc1, Hicc; simpl. rewrite Hpossible; simpl.
      destruct (cc_ClientConfig d w4) as [r w5]; simpl.
      by rewrite <- !app_assoc.
    + rewrite Hicc1, Hicc; simpl. rewrite Hpossible; simpl.
      destruct (cc_ClientConfig d w4) as [r w5]; simpl.
      by rewrite <- !app_assoc.
    + rewrite Hl1, Hl; simpl. rewrite Hdefault; simpl.
      rewrite Hicc1, Hicc; simpl. rewrite Hpossible; simpl.
      destruct (cc_ClientConfig d w4) as [r w5]; simpl.
      by rewrite <- !app_assoc.
  - intros s1 p err w4 evs c (h&w2&w3&d&Hcreate&Hcc&Hfalls&Hicc&Hpossible) Hp.
    assert (frame s s1) as ((Hl1&_&_&Hu1&Hg1&Hicc1&_)&_)
      by (apply createClientConfig_frame; by rewrite Hcreate).
    unfold ClientConfig, bind at 1. rewrite Hcreate.
    unfold impersonated. rewrite <- Hu1, <- Hg1.
    unfold set_Impersonate_UserName, set_Impersonate_Groups. run.
    rewrite Hcc; simpl.
    inversion Hfalls as [mc e Hempty| |p' l0 w3' Hl Hdefault]; subst; simpl.
    + rewrite Hempty; simpl. rewrite Hicc1, Hicc; simpl. rewrite Hpossible; simpl.
      rewrite Hp; simpl. rewrite lookup_insert_eq; simpl.
      by rewrite insert_insert_eq, <- !app_assoc.
    + rewrite Hl1, Hl; simpl. rewrite Hdefault; simpl.
      rewrite Hicc1, Hicc; simpl. rewrite Hpossible; simpl.
      rewrite Hp; simpl. rewrite lookup_insert_eq; simpl.
      by rewrite insert_insert_eq, <- !app_assoc.
  - unfold ClientConfig. rewrite !(bind_run createClientConfig).
    rewrite createClientConfig_identity.
    destruct (createClientConfig s) as [[oh oe] s1|s1|] eqn:Hcreate;
      simpl; [|by left..].
    assert (frame s s1) as ((Hl1&_&_&_&_&Hicc1&_)&_)
      by (apply createClientConfig_frame; by rewrite Hcreate).
    destruct (createClientConfig_returns _ _ _ Hcreate)
      as [(h&[= -> ->]&_)|(e&[= -> ->]&_)]; [|by left].
    unfold set_Impersonate_UserName, set_Impersonate_Groups, state_with_identity.
    run.
    destruct (cc_ClientConfig h (world s1)) as [[mc err] w2] eqn:Hcc; simpl.
    assert (∀ w3 evs, falls_through (loader (self s)) w2 mc err w3 evs →
      match icc (self s1) with
      | Some d =>
          match Possible d w3 with
          | (true, _) => True
          | (false, w4) =>
              match mc with
              | Some p =>
                  match heap w4 !! p with
                  | Some c =>
                      ∃ s1 p err w4 evs c,
                        final_branch s s1 p err w4 evs ∧ heap w4 !! p = Some c
                  | None => True
                  end
              | None => True
              end
          end
      | None => True
      end) as Hlast.
    { intros w3 evs Hfalls. rewrite Hicc1.
      destruct (icc (self s)) as [d|] eqn:Hicc; [|done].
      destruct (Possible d w3) as [[] w4] eqn:Hpossible; [done|].
      destruct mc as [p|]; [|done].
      destruct (heap w4 !! p) as [c|] eqn:Hp; [|done].
      exists s1, p, err, w4, evs, c. split; [|done].
      by exists h, w2, w3, d. }
    destruct err as [e|]; simpl.
    + destruct (IsEmptyConfig e) eqn:Hempty; simpl; [|by left].
      specialize (Hlast w2 [] (falls_empty _ _ mc e Hempty)).
      destruct (icc (self s1)) as [d|]; simpl; [|by left].
      destruct (Possible d w2) as [[] w4]; simpl.
      { destruct (cc_ClientConfig d w4); by left. }
      destruct mc as [p|]; simpl; [|by left].
      destruct (heap w4 !! p) as [c|]; simpl; [by right|by left].
    + destruct mc as [p|]; simpl.
      * rewrite Hl1 in *.
        destruct (loader (self s)) as [l|] eqn:Hl; simpl; [|by left].
        destruct (IsDefaultConfig l (Some p) w2) as [[] w3] eqn:Hdefault;
          simpl; [|by left].
        specialize (Hlast w3 _ (falls_default _ _ p l w3 eq_refl Hdefault)).
        destruct (icc (self s1)) as [d|]; simpl; [|by left].
        destruct (Possible d w3) as [[] w4]; simpl.
        { destruct (cc_ClientConfig d w4); by left. }
        destruct (heap w4 !! p) as [c|]; simpl; [by right|by left].
      * destruct (icc (self s1)) as [d|]; simpl; [|by left].
        destruct (Possible d w2) as [[] w4]; simpl; [|by left].
        destruct (cc_ClientConfig d w4); by left.
Qed.



(** C4. The last lines of [ClientConfig] write through [mergedConfig] without
    a nil check.  When the merged configuration's client configuration comes
    back nil with the empty-configuration error and the detector says that
    in-cluster configuration is not possible, the assignment to
    [mergedConfig.Impersonate.UserName] dereferences nil: the call panics
    instead of returning the configuration and the error. *)
Theorem ClientConfig_nil_merged_config_panics s h s1 e w2 d w3 :
  createClientConfig s = Ret (Some h, None) s1 →
  cc_ClientConfig h (world s1) = ((None, Some e), w2) →
  IsEmptyConfig e = true →
  icc (self s) = Some d →
  Possible d w2 = (false, w3) →
  ClientConfig s =
    Panic {| self := self s1; world := w3;
             trace := trace s1 ++ [EvMergedClientConfig; EvPossible] |}.
Proof.
  intros Hcreate Hcc Hempty Hicc Hpossible.
  assert (frame s s1) as ((_&_&_&_&_&Hicc1&_)&_)
    by (apply createClientConfig_frame; by rewrite Hcreate).
  unfold ClientConfig. rewrite bind_run, Hcreate.
  unfold set_Impersonate_UserName. run.
  rewrite Hcc; simpl. rewrite Hempty; simpl.
  rewrite Hicc1, Hicc; simpl. rewrite Hpossible; simpl.
  by rewrite <- app_assoc.
Qed.

(** ** The cache *)

(** With a handle cached, no call is a [Load]. *)
Lemma allowed_cached_not_load c h evs :
  clientConfig c = Some h →
  Forall (λ e, allowed c e = true) evs →
  Forall (λ e, is_load e = false) evs.
Proof.
  intros Hc Hevs. eapply Forall_impl; [done|].
  intros [] Ha; try done. simpl in Ha. rewrite Hc in Ha.
  by apply bool_decide_eq_true in Ha.
Qed.

(** C5. Once [createClientConfig] has returned a handle, the handle is cached,
    and after any further calls of the methods (and changes of the world
    between them) it is still the cached handle, [createClientConfig] returns
    it with a nil error and leaves the receiver, the world and the trace as
    they are, and no call of [Load] has been made since. *)
Theorem createClientConfig_cache_is_kept s0 h s :
  createClientConfig s0 = Ret (Some h, None) s →
  clientConfig (self s) = Some h ∧
  ∀ s', rtc step s s' →
    clientConfig (self s') = Some h ∧
    createClientConfig s' = Ret (Some h, None) s' ∧
    ∃ evs, trace s' = trace s ++ evs ∧ Forall (λ e, is_load e = false) evs.
Proof.
  intros Hcreate.
  assert (clientConfig (self s) = Some h) as Hc.
  { destruct (createClientConfig_returns _ _ _ Hcreate)
      as [(h'&[= <-]&Hc)|(e&[=]&_)]. done. }
  split; [done|]. intros s' Hsteps.
  apply steps_frame in Hsteps as (_&Hkeep&_&evs&Ht&Hevs).
  specialize (Hkeep h Hc). split; [done|].
  split; [by apply createClientConfig_cached|].
  exists evs. split; [done|]. by apply (allowed_cached_not_load (self s) h).
Qed.

(** C6. When [Load] fails in [createClientConfig], its error is returned as
    it is, with no handle; the receiver is left as it was, with nothing
    cached and the mutex free; and the next call reads the configuration
    again: it calls [Load] a second time, returns the error of that second
    [Load] if it fails too, and builds, caches and returns a handle if it
    succeeds. *)
Theorem createClientConfig_load_failure_not_cached s l mc e w1 :
  clientConfig (self s) = None →
  loadingLock (self s) = false →
  loader (self s) = Some l →
  Load l (world s) = ((mc, Some e), w1) →
  let s1 := {| self := self s; world := w1; trace := trace s ++ [EvLoad] |} in
  createClientConfig s = Ret (None, Some e) s1 ∧
  (∀ s2, outcome_state (createClientConfig s1) = Some s2 →
     ∃ evs, trace s2 = trace s ++ [EvLoad; EvLoad] ++ evs) ∧
  (∀ mc2 e2 w2,
     Load l w1 = ((mc2, Some e2), w2) →
     createClientConfig s1 =
       Ret (None, Some e2)
         {| self := self s; world := w2; trace := trace s ++ [EvLoad; EvLoad] |}) ∧
  (∀ cfg ov w2,
     Load l w1 = ((Some cfg, None), w2) →
     overrides (self s) = Some ov →
     ∃ h s2, createClientConfig s1 = Ret (Some h, None) s2 ∧
             clientConfig (self s2) = Some h ∧ world s2 = w2 ∧ built_by (self s) h).
Proof.
  intros Hc Hlock Hl Hload s1.
  split; [by apply (createClientConfig_load_error s l mc e w1)|].
  split; [|split].
  - intros s2. subst s1. destruct (self s) as [ol oov ord u g cc lk oicc] eqn:Hs.
    simpl in *. subst. unfold createClientConfig. run.
    repeat split_next; try done; intros; simplify_eq/=.
    all: rewrite <- ?app_assoc; simpl; by eexists.
  - intros mc2 e2 w2 Hload2.
    rewrite (createClientConfig_load_error s1 l mc2 e2 w2); try done.
    subst s1; simpl. by rewrite <- app_assoc.
  - intros cfg ov w2 Hload2 Hov.
    rewrite (createClientConfig_load_ok s1 l cfg ov w2); try done.
    subst s1; simpl.
    destruct (fallbackReader (self s)) as [rd|] eqn:Hrd; simpl.
    all: eexists _, _; split; [done|]; split; [done|]; split; [done|].
    all: exists cfg, ov, l; by rewrite Hrd.
Qed.


(** ** [Namespace] *)

(** C8. When the merged configuration is resolved and its namespace comes
    back with an error other than the empty-configuration one, or as
    overridden, or the detector says in-cluster configuration is not
    possible, [Namespace] returns the namespace, the overridden flag and the
    error as they came back.  It falls back on nothing: after the namespace
    retrieval it makes at most the call of [Possible]. *)
Theorem Namespace_returns_retrieved s h s1 ns overridden err w2 :
  createClientConfig s = Ret (Some h, None) s1 →
  cc_Namespace h (world s1) = ((ns, overridden, err), w2) →
  hard_error err = true ∨ overridden = true ∨
    (∃ d w3, icc (self s) = Some d ∧ Possible d w2 = (false, w3)) →
  ∃ w evs,
    Namespace s =
      Ret (ns, overridden, err)
        {| self := self s1; world := w;
           trace := trace s1 ++ EvMergedNamespace :: evs |} ∧
    (evs = [] ∧ w = w2 ∨
     evs = [EvPossible] ∧ ∃ d, icc (self s) = Some d ∧ Possible d w2 = (false, w)).
Proof.
  intros Hcreate Hns Hcases.
  assert (frame s s1) as ((_&_&_&_&_&Hicc1&_)&_)
    by (apply createClientConfig_frame; by rewrite Hcreate).
  unfold Namespace. rewrite bind_run, Hcreate.
  unfold Namespace_returns_immediately. run. rewrite Hns; simpl.
  destruct (hard_error err) eqn:Hhard; simpl.
  { exists w2, []. split; [done|]. by left. }
  destruct overridden; simpl.
  { exists w2, []. split; [done|]. by left. }
  destruct Hcases as [?|[?|(d&w3&Hicc&Hpossible)]]; [done..|].
  rewrite Hicc1, Hicc; simpl. rewrite Hpossible; simpl.
  exists w3, [EvPossible]. split; [by rewrite <- app_assoc|]. right. eauto.
Qed.

(** C7, amended. When the merged configuration is resolved, its namespace
    comes back as the default namespace, not overridden, with no error or the
    empty-configuration error, the receiver has a detector, and the raw
    configuration's current context names a namespace, [Namespace] returns the
    default namespace, not overridden, and never calls the detector's
    [Namespace].  With in-cluster configuration possible the error returned is
    nil; with in-cluster configuration not possible it is the error the
    retrieval returned. *)
Theorem Namespace_explicit_default s h s1 err w2 d possible w3 raw w4 context :
  createClientConfig s = Ret (Some h, None) s1 →
  cc_Namespace h (world s1) = ((v1_NamespaceDefault, false, err), w2) →
  hard_error err = false →
  icc (self s) = Some d →
  Possible d w2 = (possible, w3) →
  cc_RawConfig h w3 = ((raw, None), w4) →
  Contexts raw !! CurrentContext raw = Some (Some context) →
  ctx_Namespace context ≠ "" →
  Namespace s =
    Ret (v1_NamespaceDefault, false, if possible then None else err)
      {| self := self s1; world := if possible then w4 else w3;
         trace := trace s1 ++ [EvMergedNamespace; EvPossible] ++
                  (if possible then [EvMergedRawConfig] else []) |} ∧
  ∃ evs, trace s1 ++ [EvMergedNamespace; EvPossible] ++
           (if possible then [EvMergedRawConfig] else []) = trace s ++ evs ∧
         Forall (λ e, icc_source_event e = false) evs.
Proof.
  intros Hcreate Hns Hhard Hicc Hpossible Hraw Hcontext Hnamespace.
  split; cycle 1.
  { destruct (createClientConfig_trace s s1) as (evs&->&Hevs); [by rewrite Hcreate|].
    eexists. split; [by rewrite <- app_assoc|].
    apply Forall_app; split.
    - eapply Forall_impl; [done|]. by intros [].
    - destruct possible; by repeat constructor. }
  assert (context_sets_namespace raw = true) as Hctx.
  { unfold context_sets_namespace. rewrite Hcontext.
    apply negb_true_iff. by apply String.eqb_neq. }
  assert (frame s s1) as ((_&_&_&_&_&Hicc1&_)&_)
    by (apply createClientConfig_frame; by rewrite Hcreate).
  unfold Namespace. rewrite bind_run, Hcreate.
  unfold Namespace_returns_immediately. run. rewrite Hns; simpl.
  rewrite Hhard; simpl.
  rewrite Hicc1, Hicc; simpl. rewrite Hpossible; simpl.
  destruct possible; simpl.
  - rewrite Hraw; simpl. rewrite Hctx; simpl. by rewrite <- !app_assoc.
  - by rewrite <- !app_assoc.
Qed.


(** ** Receivers built by [NewImpersonationClientConfig] *)

(** C9. [NewImpersonationClientConfig] leaves the detector nil, and no method
    ever sets it.  So on a receiver built by it, after any calls: the detector
    is nil; no call has been made on a detector; a [ClientConfig] whose merged
    configuration passes the switch panics where it asks [Possible]; and so
    does a [Namespace] whose retrieved namespace is not overridden and comes
    without a hard error. *)
Theorem NewImpersonationClientConfig_has_no_detector l ov u g w s :
  rtc step (fresh (NewImpersonationClientConfig l ov u g) w) s →
  icc (NewImpersonationClientConfig l ov u g) = None ∧
  icc (self s) = None ∧
  Forall (λ e, icc_event e = false) (trace s) ∧
  (∀ h s1 mc err w2 w3 evs,
     createClientConfig s = Ret (Some h, None) s1 →
     cc_ClientConfig h (world s1) = ((mc, err), w2) →
     falls_through (loader (self s)) w2 mc err w3 evs →
     ClientConfig s =
       Panic {| self := self s1; world := w3;
                trace := trace s1 ++ EvMergedClientConfig :: evs |}) ∧
  (∀ h s1 ns err w2,
     createClientConfig s = Ret (Some h, None) s1 →
     cc_Namespace h (world s1) = ((ns, false, err), w2) →
     hard_error err = false →
     Namespace s =
       Panic {| self := self s1; world := w2;
                trace := trace s1 ++ [EvMergedNamespace] |}).
Proof.
  intros Hsteps. split; [done|].
  apply steps_frame in Hsteps as ((_&_&_&_&_&Hicc&_)&_&_&evs&Ht&Hevs).
  simpl in Hicc, Ht. split; [done|]. split.
  { rewrite Ht. eapply Forall_impl; [done|]. by intros []. }
  split.
  - intros h s1 mc err w2 w3 evs' Hcreate Hcc Hfalls.
    assert (frame s s1) as ((Hl1&_&_&_&_&Hicc1&_)&_)
      by (apply createClientConfig_frame; by rewrite Hcreate).
    unfold ClientConfig. rewrite bind_run, Hcreate. run.
    rewrite Hcc; simpl.
    destruct Hfalls as [mc e Hempty| |p l0 w3 Hl Hdefault]; simpl.
    + rewrite Hempty; simpl. by rewrite Hicc1, Hicc.
    + by rewrite Hicc1, Hicc.
    + rewrite Hl1, Hl; simpl. rewrite Hdefault; simpl.
      rewrite Hicc1, Hicc; simpl. by rewrite <- app_assoc.
  - intros h s1 ns err w2 Hcreate Hns Hhard.
    assert (frame s s1) as ((_&_&_&_&_&Hicc1&_)&_)
      by (apply createClientConfig_frame; by rewrite Hcreate).
    unfold Namespace. rewrite bind_run, Hcreate.
    unfold Namespace_returns_immediately. run. rewrite Hns; simpl.
    rewrite Hhard; simpl.
    by rewrite Hicc1, Hicc.
Qed.

(** C10. [NewImpersonationClientConfig] leaves the fallback reader nil, and
    no method ever sets it.  So on a receiver built by it, after any calls:
    the fallback reader is nil; the interactive constructor has never been
    called; a cached handle was built by the non-interactive constructor; and
    with nothing cached, a [createClientConfig] whose [Load] succeeds calls
    the non-interactive constructor and caches and returns its handle. *)
Theorem NewImpersonationClientConfig_is_non_interactive l ov u g w s :
  rtc step (fresh (NewImpersonationClientConfig l ov u g) w) s →
  fallbackReader (NewImpersonationClientConfig l ov u g) = None ∧
  fallbackReader (self s) = None ∧
  (EvNewInteractiveClientConfig ∉ trace s) ∧
  (∀ h, clientConfig (self s) = Some h →
     ∃ cfg ov0 l0, h = NewNonInteractiveClientConfig cfg (ov_CurrentContext ov0) ov0 l0) ∧
  (∀ l0 ov0 cfg w',
     l = Some l0 → ov = Some ov0 →
     clientConfig (self s) = None →
     Load l0 (world s) = ((Some cfg, None), w') →
     let h := NewNonInteractiveClientConfig cfg (ov_CurrentContext ov0) ov0 l0 in
     createClientConfig s =
       Ret (Some h, None)
         {| self := with_clientConfig (Some h) (self s); world := w';
            trace := trace s ++ [EvLoad; EvNewNonInteractiveClientConfig] |}).
Proof.
  intros Hsteps. split; [done|].
  apply steps_frame in Hsteps
    as ((Hl&Hov&Hrd&_&_&_&Hlock)&_&Hbuilt&evs&Ht&Hevs).
  simpl in *. split; [done|]. split; [|split].
  - rewrite Ht. intros Hin.
    eapply Forall_forall in Hevs; [|exact Hin]. done.
  - intros h Hc. destruct (Hbuilt h eq_refl Hc) as (cfg&ov0&l0&_&_&->).
    by exists cfg, ov0, l0.
  - intros l0 ov0 cfg w' -> -> Hc Hload.
    rewrite (createClientConfig_load_ok s l0 cfg ov0 w'); try done.
    by rewrite Hrd.
Qed.


(** * Further properties *)

(** ** Errors and delegation *)

(** X1. When the merged configuration's client configuration comes back with
    an error other than the empty-configuration one, [ClientConfig] returns
    that error and a nil configuration, even when the retrieval also returned
    a configuration.  It stops there: neither the loader's [IsDefaultConfig]
    nor the detector is asked, and the world is as the retrieval left it. *)
Theorem ClientConfig_hard_error s h s1 mc e w2 :
  createClientConfig s = Ret (Some h, None) s1 →
  cc_ClientConfig h (world s1) = ((mc, Some e), w2) →
  IsEmptyConfig e = false →
  ClientConfig s =
    Ret (None, Some e)
      {| self := self s1; world := w2; trace := trace s1 ++ [EvMergedClientConfig] |}.
Proof.
  intros Hcreate Hcc Hhard.
  unfold ClientConfig. rewrite bind_run, Hcreate. run.
  rewrite Hcc; simpl. by rewrite Hhard.
Qed.

(** X2. A failed [Load] surfaces through every accessor.  With nothing cached
    and the mutex free, when [Load] fails with [e], [RawConfig] returns the
    zero configuration and [e], [ClientConfig] returns nil and [e], and
    [Namespace] returns the empty namespace, not overridden, and [e].  Each
    leaves the receiver as it was, with nothing cached, and has called [Load]
    and nothing else. *)
Theorem accessors_load_failure s l mc e w1 :
  clientConfig (self s) = None →
  loadingLock (self s) = false →
  loader (self s) = Some l →
  Load l (world s) = ((mc, Some e), w1) →
  let s1 := {| self := self s; world := w1; trace := trace s ++ [EvLoad] |} in
  RawConfig s = Ret (clientcmdapi_Config_zero, Some e) s1 ∧
  ClientConfig s = Ret (None, Some e) s1 ∧
  Namespace s = Ret ("", false, Some e) s1.
Proof.
  intros Hc Hlock Hl Hload s1.
  pose proof (createClientConfig_load_error s l mc e w1 Hc Hlock Hl Hload) as Hcreate.
  unfold RawConfig, ClientConfig, Namespace.
  rewrite !bind_run, Hcreate. done.
Qed.

(** X3. [RawConfig] has no fallback.  Once the merged configuration is
    resolved, [RawConfig] returns what the merged configuration's [RawConfig]
    returns, configuration and error alike, and that call is the only one it
    makes: the detector is not asked even when the error is the
    empty-configuration one. *)
Theorem RawConfig_delegates s h s1 :
  createClientConfig s = Ret (Some h, None) s1 →
  RawConfig s =
    Ret (cc_RawConfig h (world s1)).1
      {| self := self s1; world := (cc_RawConfig h (world s1)).2;
         trace := trace s1 ++ [EvMergedRawConfig] |} ∧
  ∃ evs, trace s1 ++ [EvMergedRawConfig] = trace s ++ evs ∧
         Forall (λ e, icc_event e = false) evs.
Proof.
  intros Hcreate. split.
  - unfold RawConfig. rewrite bind_run, Hcreate. run.
    by destruct (cc_RawConfig h (world s1)).
  - destruct (createClientConfig_trace s s1) as (evs&->&Hevs); [by rewrite Hcreate|].
    exists (evs ++ [EvMergedRawConfig]). split; [by rewrite app_assoc|].
    apply Forall_app; split; [by apply resolution_not_icc|by repeat constructor].
Qed.

(** ** The other branches of [Namespace] *)

(** X4. A namespace other than the default one wins over the in-cluster
    namespace.  When the namespace retrieved is not empty, not the default
    one and not overridden, the error is nil or the empty-configuration one,
    and in-cluster configuration is possible, [Namespace] returns that
    namespace, not overridden, with a nil error (an empty-configuration error
    is dropped).  It reads neither the raw configuration nor the detector's
    namespace. *)
Theorem Namespace_explicit_namespace s h s1 ns err w2 d w3 :
  createClientConfig s = Ret (Some h, None) s1 →
  cc_Namespace h (world s1) = ((ns, false, err), w2) →
  hard_error err = false →
  icc (self s) = Some d →
  Possible d w2 = (true, w3) →
  ns ≠ "" →
  ns ≠ v1_NamespaceDefault →
  Namespace s =
    Ret (ns, false, None)
      {| self := self s1; world := w3;
         trace := trace s1 ++ [EvMergedNamespace; EvPossible] |}.
Proof.
  intros Hcreate Hns Hhard Hicc Hpossible Hnonempty Hnondefault.
  assert (frame s s1) as ((_&_&_&_&_&Hicc1&_)&_)
    by (apply createClientConfig_frame; by rewrite Hcreate).
  unfold Namespace. rewrite bind_run, Hcreate.
  unfold Namespace_returns_immediately. run. rewrite Hns; simpl.
  rewrite Hhard; simpl. rewrite Hicc1, Hicc; simpl. rewrite Hpossible; simpl.
  apply String.eqb_neq in Hnonempty, Hnondefault.
  rewrite Hnonempty, Hnondefault; simpl. by rewrite <- app_assoc.
Qed.

(** X5. An implicit namespace gives way to the in-cluster one.  When the
    namespace retrieved is not overridden, the error is nil or the
    empty-configuration one, in-cluster configuration is possible, and the
    namespace is empty, or is the default one while the raw configuration
    cannot be read or its current context names no namespace, [Namespace]
    returns what the detector's [Namespace] returns. *)
Theorem Namespace_in_cluster_fallback s h s1 ns err w2 d w3 w4 evs :
  createClientConfig s = Ret (Some h, None) s1 →
  cc_Namespace h (world s1) = ((ns, false, err), w2) →
  hard_error err = false →
  icc (self s) = Some d →
  Possible d w2 = (true, w3) →
  namespace_is_implicit h w3 ns w4 evs →
  Namespace s =
    Ret (cc_Namespace d w4).1
      {| self := self s1; world := (cc_Namespace d w4).2;
         trace := trace s1 ++ [EvMergedNamespace; EvPossible] ++ evs ++
                  [EvLog "Using in-cluster namespace"; EvInClusterNamespace] |}.
Proof.
  intros Hcreate Hns Hhard Hicc Hpossible Himplicit.
  assert (frame s s1) as ((_&_&_&_&_&Hicc1&_)&_)
    by (apply createClientConfig_frame; by rewrite Hcreate).
  unfold Namespace. rewrite bind_run, Hcreate.
  unfold Namespace_returns_immediately. run. rewrite Hns; simpl.
  rewrite Hhard; simpl. rewrite Hicc1, Hicc; simpl. rewrite Hpossible; simpl.
  destruct Himplicit as [|raw e w4 Hraw|raw w4 Hraw Hctx]; simpl.
  - rewrite Hicc1, Hicc; simpl.
    destruct (cc_Namespace d w3) as [r w5]; simpl. by rewrite <- !app_assoc.
  - rewrite Hraw; simpl. rewrite Hicc1, Hicc; simpl.
    destruct (cc_Namespace d w4) as [r w5]; simpl. by rewrite <- !app_assoc.
  - rewrite Hraw; simpl. rewrite Hctx; simpl. rewrite Hicc1, Hicc; simpl.
    destruct (cc_Namespace d w4) as [r w5]; simpl. by rewrite <- !app_assoc.
Qed.


(** ** The mutex *)

Lemma bind_blocked {A B} (m : M A) (k : A → M B) s :
  bind m k s = Blocked →
  m s = Blocked ∨ ∃ a s1, m s = Ret a s1 ∧ k a s1 = Blocked.
Proof. unfold bind. destruct (m s) as [a s1|s1|]; [eauto|done|eauto]. Qed.

(** [createClientConfig] waits exactly when it needs the mutex and the mutex
    is held. *)
Lemma createClientConfig_blocks_iff s :
  createClientConfig s = Blocked ↔
  clientConfig (self s) = None ∧ loadingLock (self s) = true.
Proof.
  split; [|intros [? ?]; by apply createClientConfig_blocked].
  destruct s as [[ol oov ord u g cc lk oicc] w t].
  unfold createClientConfig. run.
  repeat split_next; done.
Qed.

(** Nothing a method does after the merged configuration is resolved can
    wait: a call that waits, waits in [createClientConfig]. *)
Lemma invoke_blocked_in_createClientConfig m s :
  invoke m s = Blocked → createClientConfig s = Blocked.
Proof.
  intros Hblocked. destruct m; simpl in Hblocked.
  all: apply bind_blocked in Hblocked as [Hblocked|(a&s1&_&Hblocked)];
    [|done].
  - done.
  - unfold RawConfig in Hblocked.
    apply bind_blocked in Hblocked as [?|([oh oe]&s1&_&Hblocked)]; [done|].
    exfalso. revert Hblocked. run. repeat split_next; done.
  - unfold ClientConfig in Hblocked.
    apply bind_blocked in Hblocked as [?|([oh oe]&s1&_&Hblocked)]; [done|].
    exfalso. revert Hblocked.
    unfold set_Impersonate_UserName, set_Impersonate_Groups. run.
    repeat split_next; done.
  - unfold Namespace in Hblocked.
    apply bind_blocked in Hblocked as [?|([oh oe]&s1&_&Hblocked)]; [done|].
    exfalso. revert Hblocked. unfold Namespace_returns_immediately. run.
    repeat split_next; done.
Qed.

(** X6. The fast path takes no lock.  A call of a method waits for the mutex
    exactly when nothing is cached and the mutex is held: with a handle
    cached no method touches the mutex, and nothing a method does after the
    merged configuration is resolved can wait. *)
Theorem invoke_blocks_iff m s :
  invoke m s = Blocked ↔
  clientConfig (self s) = None ∧ loadingLock (self s) = true.
Proof.
  split.
  - intros Hblocked. apply createClientConfig_blocks_iff.
    by apply (invoke_blocked_in_createClientConfig m).
  - intros [Hc Hlock].
    pose proof (createClientConfig_blocked s Hc Hlock) as Hblocked.
    destruct m; simpl.
    all: unfold RawConfig, ClientConfig, Namespace; rewrite !bind_run.
    all: by rewrite Hblocked.
Qed.

(** X7. The mutex is always released.  From a state with the mutex free,
    after any calls of the methods, returned or panicked, and any changes of
    the world, the mutex is free again and no call waits. *)
Theorem mutex_released_after_every_call s s' m :
  loadingLock (self s) = false →
  rtc step s s' →
  loadingLock (self s') = false ∧ invoke m s' ≠ Blocked.
Proof.
  intros Hfree Hsteps.
  apply steps_frame in Hsteps as ((_&_&_&_&_&_&Hlock)&_).
  rewrite Hfree in Hlock. split; [done|].
  intros Hblocked. apply invoke_blocked_in_createClientConfig in Hblocked.
  apply createClientConfig_blocks_iff in Hblocked as [_ Hheld]. congruence.
Qed.

(** ** The fields of the receiver *)

(** X8. The receiver keeps what the constructor was given.  On a receiver
    built by [NewImpersonationClientConfig], after any calls, [ConfigAccess]
    returns the constructor's loader, and the overrides, the user and the
    groups are the constructor's. *)
Theorem ConfigAccess_is_the_loader l ov u g w s :
  rtc step (fresh (NewImpersonationClientConfig l ov u g) w) s →
  ConfigAccess (self s) = l ∧
  overrides (self s) = ov ∧ user (self s) = u ∧ groups (self s) = g.
Proof.
  intros Hsteps.
  by apply steps_frame in Hsteps as ((?&?&_&?&?&_)&_).
Qed.


(** ** How often the merged configuration is built *)

Lemma constructions_app t1 t2 :
  constructions (t1 ++ t2) = constructions t1 + constructions t2.
Proof. unfold constructions. by rewrite List.filter_app, length_app. Qed.

Lemma constructions_none evs :
  Forall (λ e, resolution_event e = false) evs → constructions evs = 0.
Proof.
  induction 1 as [|e evs He _ IH]; [done|].
  unfold constructions in *. simpl. by destruct e.
Qed.

(** [createClientConfig] calls a constructor exactly when it caches. *)
Lemma createClientConfig_constructions s s' :
  outcome_state (createClientConfig s) = Some s' →
  constructions (trace s') + cached (self s) =
  constructions (trace s) + cached (self s').
Proof.
  destruct (clientConfig (self s)) as [h|] eqn:Hc.
  { rewrite (createClientConfig_cached s h Hc). by intros [= <-]. }
  destruct s as [[ol oov ord u g cc lk oicc] w t].
  simpl in Hc. subst cc. unfold createClientConfig, cached. run.
  repeat split_next; try done; intros; simplify_eq/=.
  all: rewrite <- ?app_assoc, ?constructions_app; unfold constructions; simpl; lia.
Qed.

(** What a method does once the merged configuration is resolved: it leaves
    the receiver alone and calls neither [Load] nor a constructor. *)
Ltac after_resolution :=
  repeat split_next; try done; intros; simplify_eq/=;
  (split; [reflexivity|]);
  first
    [ exists []; split; [by rewrite app_nil_r|constructor]
    | eexists; split; [rewrite <- ?app_assoc; reflexivity|];
      by repeat constructor ].

Lemma invoke_after_resolution m s s' :
  outcome_state (invoke m s) = Some s' →
  ∃ s1, outcome_state (createClientConfig s) = Some s1 ∧
        self s' = self s1 ∧
        ∃ evs, trace s' = trace s1 ++ evs ∧
               Forall (λ e, resolution_event e = false) evs.
Proof.
  assert (∀ s1, self s1 = self s1 ∧
            ∃ evs, trace s1 = trace s1 ++ evs ∧
                   Forall (λ e, resolution_event e = false) evs) as Hsame.
  { intros s1. split; [done|]. exists []. by rewrite app_nil_r. }
  intros Ho. destruct m; simpl in Ho.
  all: apply outcome_state_bind in Ho as [Hp|(a&s2&Hr&Ho)];
    [|simpl in Ho; injection Ho as <-].
  - exists s'. by rewrite Hp.
  - exists s2. by rewrite Hr.
  - unfold RawConfig in Hp. rewrite bind_run in Hp.
    destruct (createClientConfig s) as [[oh oe] s1|s1|] eqn:Hcreate;
      [|injection Hp as ->; by exists s'|done].
    exists s1. split; [done|]. revert Hp.
    destruct s1 as [[ol oov ord u g cc lk oicc] w1 t1]. run. after_resolution.
  - unfold RawConfig in Hr. rewrite bind_run in Hr.
    destruct (createClientConfig s) as [[oh oe] s1|s1|] eqn:Hcreate; [|done..].
    exists s1. split; [done|]. revert Hr.
    destruct s1 as [[ol oov ord u g cc lk oicc] w1 t1]. run. after_resolution.
  - unfold ClientConfig in Hp. rewrite bind_run in Hp.
    destruct (createClientConfig s) as [[oh oe] s1|s1|] eqn:Hcreate;
      [|injection Hp as ->; by exists s'|done].
    exists s1. split; [done|]. revert Hp.
    destruct s1 as [[ol oov ord u g cc lk oicc] w1 t1].
    unfold set_Impersonate_UserName, set_Impersonate_Groups. run. after_resolution.
  - unfold ClientConfig in Hr. rewrite bind_run in Hr.
    destruct (createClientConfig s) as [[oh oe] s1|s1|] eqn:Hcreate; [|done..].
    exists s1. split; [done|]. revert Hr.
    destruct s1 as [[ol oov ord u g cc lk oicc] w1 t1].
    unfold set_Impersonate_UserName, set_Impersonate_Groups. run. after_resolution.
  - unfold Namespace in Hp. rewrite bind_run in Hp.
    destruct (createClientConfig s) as [[oh oe] s1|s1|] eqn:Hcreate;
      [|injection Hp as ->; by exists s'|done].
    exists s1. split; [done|]. revert Hp.
    destruct s1 as [[ol oov ord u g cc lk oicc] w1 t1].
    unfold Namespace_returns_immediately. run. after_resolution.
  - unfold Namespace in Hr. rewrite bind_run in Hr.
    destruct (createClientConfig s) as [[oh oe] s1|s1|] eqn:Hcreate; [|done..].
    exists s1. split; [done|]. revert Hr.
    destruct s1 as [[ol oov ord u g cc lk oicc] w1 t1].
    unfold Namespace_returns_immediately. run. after_resolution.
Qed.

Lemma step_constructions s s' :
  step s s' →
  constructions (trace s') + cached (self s) =
  constructions (trace s) + cached (self s').
Proof.
  intros [m s0 s2 Ho|s0 w]; [|done].
  apply invoke_after_resolution in Ho as (s1&Hcreate&Hself&evs&Ht&Hevs).
  apply createClientConfig_constructions in Hcreate.
  rewrite Ht, constructions_app, (constructions_none evs Hevs).
  unfold cached in *. rewrite Hself. lia.
Qed.

(** X9. The merged configuration is built once.  On a receiver that starts
    with nothing cached, after any calls of the methods, returned or
    panicked, and any changes of the world, the constructors of client-go
    have been called once in all if a handle is cached, and never if none
    is: failed loads and panics build nothing, and a cached handle is not
    built again. *)
Theorem merged_configuration_is_built_once config w s :
  clientConfig config = None →
  rtc step (fresh config w) s →
  constructions (trace s) = cached (self s).
Proof.
  intros Hc Hsteps.
  assert (∀ s0, rtc step s0 s →
            constructions (trace s) + cached (self s0) =
            constructions (trace s0) + cached (self s)) as Hinv.
  { clear. induction 1 as [|s1 s2 s3 Hstep _ IH]; [done|].
    apply step_constructions in Hstep. lia. }
  specialize (Hinv _ Hsteps). unfold cached in Hinv at 1. simpl in Hinv.
  rewrite Hc in Hinv. change (constructions []) with 0 in Hinv. lia.
Qed.


(** ** What [ClientConfig] can return, and when [createClientConfig] panics *)

(** X10. Unless its result is the detector's, [ClientConfig] returns either
    no configuration and an error, or a configuration with no error or with
    the empty-configuration error.  In particular it never returns nil with a
    nil error of its own, and never a configuration together with a hard
    error. *)
Theorem ClientConfig_returns s p err s' :
  ClientConfig s = Ret (p, err) s' →
  (∃ t, trace s' = t ++ [EvInClusterClientConfig]) ∨
  (p = None ∧ is_Some err) ∨
  (is_Some p ∧ hard_error err = false).
Proof.
  unfold ClientConfig. rewrite bind_run.
  destruct (createClientConfig s) as [[oh oe] s1|s1|] eqn:Hcreate; [|done..].
  destruct s1 as [[ol oov ord u g cc lk oicc] w1 t1].
  unfold set_Impersonate_UserName, set_Impersonate_Groups, hard_error. run.
  repeat split_next; try done; intros; simplify_eq/=.
  all: first
    [ left; by eexists
    | right; left; by eauto
    | right; right; split; [by eauto|];
      first [ done | by apply negb_false_iff ] ].
Qed.

(** X11. [createClientConfig] panics in three cases and no other: with
    nothing cached and the mutex free, when the loader is nil, when [Load]
    returns a nil configuration with a nil error, or when [Load] succeeds and
    the overrides are nil.  Each time the deferred [Unlock] has run and
    nothing is cached: the receiver is as it was before the call. *)
Theorem createClientConfig_panics_iff s s' :
  createClientConfig s = Panic s' ↔
  clientConfig (self s) = None ∧ loadingLock (self s) = false ∧
  (loader (self s) = None ∧ s' = s ∨
   ∃ l w', loader (self s) = Some l ∧
     (Load l (world s) = ((None, None), w') ∨
      ∃ cfg, Load l (world s) = ((Some cfg, None), w') ∧ overrides (self s) = None) ∧
     s' = {| self := self s; world := w'; trace := trace s ++ [EvLoad] |}).
Proof.
  destruct s as [[ol oov ord u g cc lk oicc] w t].
  unfold createClientConfig. run. split.
  - repeat split_next; try done; intros; simplify_eq/=.
    all: split; [done|]; split; [done|].
    all: first [ left; done | right; eexists _, _; split; [done|]; split; [|done] ].
    all: first [ left; done | right; by eexists ].
  - intros (->&->&[[-> ->]|(l&w'&->&[Hload|(cfg&Hload&->)]&->)]); simpl.
    all: by rewrite ?Hload.
Qed.


(** ** The identity outside [ClientConfig] *)

(** X12. The impersonation identity plays no part in [RawConfig] and
    [Namespace]: with another user and other groups stored in the receiver,
    each returns the same result, or panics or waits alike, and leaves the
    same world, the same trace and the same cache. *)
Theorem RawConfig_Namespace_ignore_identity u g s :
  RawConfig (state_with_identity u g s) =
    outcome_with_identity u g (RawConfig s) ∧
  Namespace (state_with_identity u g s) =
    outcome_with_identity u g (Namespace s).
Proof.
  unfold RawConfig, Namespace. rewrite !bind_run, !createClientConfig_identity.
  destruct (createClientConfig s) as [[oh oe] s1|s1|] eqn:Hcreate; simpl; [|done..].
  destruct s1 as [[ol oov ord u1 g1 cc lk oicc] w1 t1].
  unfold Namespace_returns_immediately, state_with_identity. run.
  split; repeat split_next; done.
Qed.

End properties.

(** * The methods on concrete receivers *)

Section examples.
Local Existing Instance test_imports.
Local Existing Instance direct.

(** With a kubeconfig that the loader does not call the default,
    [ClientConfig] returns the configuration at address 1 and asks the
    detector nothing, although in-cluster configuration is possible. *)
Lemma ClientConfig_explicit_config_witness :
  ClientConfig (kube_state false true) =
    Ret (Some 1%positive, None) (state_after MClientConfig (kube_state false true)) ∧
  trace (state_after MClientConfig (kube_state false true)) =
    [EvLoad; EvNewNonInteractiveClientConfig; EvMergedClientConfig; EvIsDefaultConfig].
Proof.
  split; [|reflexivity].
  apply (ClientConfig_explicit_config
           (kube_state false true)
           (direct_client_config (kubeconfig "default"))
           (state_after MCreateClientConfig (kube_state false true))
           1%positive test_world
           (file_loader (kubeconfig "default") false) test_world);
    reflexivity.
Defined.

(** With a kubeconfig that the loader calls the default and in-cluster
    configuration possible, [ClientConfig] returns the detector's
    configuration, at address 2. *)
Lemma ClientConfig_in_cluster_fallback_witness :
  ClientConfig (kube_state true true) =
    Ret (Some 2%positive, None) (state_after MClientConfig (kube_state true true)).
Proof.
  apply (ClientConfig_in_cluster_fallback
           (kube_state true true)
           (direct_client_config (kubeconfig "default"))
           (state_after MCreateClientConfig (kube_state true true))
           (Some 1%positive) None test_world test_world [EvIsDefaultConfig]
           (detector true) test_world);
    try reflexivity.
  by apply falls_default with (file_loader (kubeconfig "default") true).
Defined.

(** With a kubeconfig that the loader calls the default and in-cluster
    configuration not possible, [ClientConfig] returns address 1, where the
    configuration now carries the receiver's user and groups. *)
Lemma ClientConfig_identity_scope_witness :
  ClientConfig (kube_state true false) =
    Ret (Some 1%positive, None) (state_after MClientConfig (kube_state true false)) ∧
  Impersonate <$> heap (world (state_after MClientConfig (kube_state true false))) !! 1%positive =
    Some {| UserName := "alice"; Groups := ["dev"; "ops"]; Extra := ∅ |}.
Proof.
  split; [|reflexivity].
  apply (proj1 (proj2 (proj2
           (ClientConfig_identity_scope (kube_state true false) "" [])))
           (state_after MCreateClientConfig (kube_state true false))
           1%positive None test_world [EvIsDefaultConfig]
           (test_config "https://kube.example")); [|reflexivity].
  exists (direct_client_config (kubeconfig "default")), test_world, test_world,
    (detector false).
  repeat split; try reflexivity.
  by apply falls_default with (file_loader (kubeconfig "default") true).
Defined.

(** With no kubeconfig and in-cluster configuration not possible,
    [ClientConfig] panics after asking the detector. *)
Lemma ClientConfig_nil_merged_config_panics_witness :
  ClientConfig (empty_state false) =
    Panic (state_after MClientConfig (empty_state false)) ∧
  trace (state_after MClientConfig (empty_state false)) =
    [EvLoad; EvNewNonInteractiveClientConfig; EvMergedClientConfig; EvPossible].
Proof.
  split; [|reflexivity].
  apply (ClientConfig_nil_merged_config_panics
           (empty_state false)
           (direct_client_config no_kubeconfig)
           (state_after MCreateClientConfig (empty_state false))
           ErrEmptyConfig test_world (detector false) test_world);
    reflexivity.
Defined.

(** After a first [createClientConfig], a [Namespace] and a [ClientConfig],
    the handle is still cached, [createClientConfig] returns it without
    changing anything, and the only [Load] is the first one. *)
Lemma createClientConfig_cache_is_kept_witness :
  let s := state_after MCreateClientConfig (kube_state false true) in
  let s' := state_after MClientConfig (state_after MNamespace s) in
  createClientConfig s' =
    Ret (Some (direct_client_config (kubeconfig "default")), None) s' ∧
  trace s' =
    [EvLoad; EvNewNonInteractiveClientConfig; EvMergedNamespace; EvPossible;
     EvMergedRawConfig; EvMergedClientConfig; EvIsDefaultConfig].
Proof.
  intros s s'. split; [|reflexivity].
  apply (createClientConfig_cache_is_kept (kube_state false true)
           (direct_client_config (kubeconfig "default")) s); [reflexivity|].
  apply rtc_l with (state_after MNamespace s);
    [by apply (step_call MNamespace)|].
  apply rtc_once. by apply (step_call MClientConfig).
Defined.

(** The configuration file cannot be read at first: [createClientConfig]
    returns the error and caches nothing, and the next call reads the file
    again and caches the handle. *)
Lemma createClientConfig_load_failure_not_cached_witness :
  createClientConfig flaky_state =
    Ret (None, Some ErrInvalidConfig) (state_after MCreateClientConfig flaky_state) ∧
  clientConfig (self (state_after MCreateClientConfig flaky_state)) = None ∧
  ∃ h s2,
    createClientConfig (state_after MCreateClientConfig flaky_state) =
      Ret (Some h, None) s2 ∧
    clientConfig (self s2) = Some h.
Proof.
  destruct (createClientConfig_load_failure_not_cached flaky_state
              (flaky_loader (kubeconfig "default")) None ErrInvalidConfig
              {| heap := heap test_world; env := 1 |}
              eq_refl eq_refl eq_refl eq_refl) as (Hfirst&_&_&Hnext).
  split; [exact Hfirst|]. split; [reflexivity|].
  destruct (Hnext (kubeconfig "default") no_overrides
              {| heap := heap test_world; env := 1 |} eq_refl eq_refl)
    as (h&s2&Hsecond&Hcached&_).
  by exists h, s2.
Defined.

(** The merged configuration reports the default namespace together with the
    empty-configuration error, the current context names a namespace and
    in-cluster configuration is possible: [Namespace] returns the default
    namespace, no error, and does not ask the detector for its namespace. *)
Lemma Namespace_explicit_default_witness :
  Namespace (Cmd := lenient) (kube_state true true) =
    Ret (v1_NamespaceDefault, false, None)
      (state_after (Cmd := lenient) MNamespace (kube_state true true)) ∧
  trace (state_after (Cmd := lenient) MNamespace (kube_state true true)) =
    [EvLoad; EvNewNonInteractiveClientConfig; EvMergedNamespace; EvPossible;
     EvMergedRawConfig].
Proof.
  split; [|reflexivity].
  apply (Namespace_explicit_default (Cmd := lenient)
           (kube_state true true)
           (lenient_client_config (kubeconfig "default"))
           (state_after (Cmd := lenient) MCreateClientConfig (kube_state true true))
           (Some ErrEmptyConfig) test_world (detector true) true test_world
           (kubeconfig "default") test_world
           {| ctx_Cluster := "c"; ctx_AuthInfo := "u"; ctx_Namespace := "default" |});
    done.
Defined.

(** C7 as stated fails.  The same receiver with in-cluster configuration not
    possible meets the conditions of the claim: the namespace retrieved is the
    default one, not overridden, with the empty-configuration error, which is
    not a hard error, and the current context of the raw configuration names a
    namespace.  [Namespace] returns the empty-configuration error, not nil. *)
Lemma Namespace_explicit_default_counterexample :
  let s := kube_state true false in
  let h := lenient_client_config (kubeconfig "default") in
  let s1 := state_after (Cmd := lenient) MCreateClientConfig s in
  createClientConfig (Cmd := lenient) s = Ret (Some h, None) s1 ∧
  cc_Namespace h (world s1) =
    ((v1_NamespaceDefault, false, Some ErrEmptyConfig), world s1) ∧
  hard_error (Cmd := lenient) (Some ErrEmptyConfig) = false ∧
  (∀ w, cc_RawConfig h w = ((kubeconfig "default", None), w)) ∧
  (∃ context,
     Contexts (kubeconfig "default") !! CurrentContext (kubeconfig "default") =
       Some (Some context) ∧
     ctx_Namespace context ≠ "") ∧
  Namespace (Cmd := lenient) s =
    Ret (v1_NamespaceDefault, false, Some ErrEmptyConfig)
      (state_after (Cmd := lenient) MNamespace s) ∧
  ¬ ∃ s', Namespace (Cmd := lenient) s = Ret (v1_NamespaceDefault, false, None) s'.
Proof.
  intros s h s1. repeat split; try reflexivity.
  - by eexists.
  - intros [s' Hs']. discriminate Hs'.
Qed.

(** The detector says in-cluster configuration is not possible: [Namespace]
    returns what the merged configuration returned, after asking only
    [Possible]. *)
Lemma Namespace_returns_retrieved_witness :
  ∃ w evs,
    Namespace (kube_state true false) =
      Ret (v1_NamespaceDefault, false, None)
        {| self := self (state_after MCreateClientConfig (kube_state true false));
           world := w;
           trace := [EvLoad; EvNewNonInteractiveClientConfig] ++
                    EvMergedNamespace :: evs |} ∧
    (evs = [] ∧ w = test_world ∨
     evs = [EvPossible] ∧
     ∃ d, icc (self (kube_state true false)) = Some d ∧
          Possible d test_world = (false, w)).
Proof.
  apply (Namespace_returns_retrieved
           (kube_state true false)
           (direct_client_config (kubeconfig "default"))
           (state_after MCreateClientConfig (kube_state true false))
           v1_NamespaceDefault false None test_world); [reflexivity..|].
  right; right. by exists (detector false), test_world.
Defined.

(** A receiver built by the constructor, with no kubeconfig, after a
    [RawConfig]: the detector is nil, and [ClientConfig] and [Namespace]
    panic. *)
Lemma NewImpersonationClientConfig_has_no_detector_witness :
  let s := state_after MRawConfig (constructed_state no_kubeconfig) in
  icc (self s) = None ∧
  ClientConfig s = Panic (state_after MClientConfig s) ∧
  Namespace s = Panic (state_after MNamespace s).
Proof.
  intros s.
  destruct (NewImpersonationClientConfig_has_no_detector
              (Some (file_loader no_kubeconfig true)) (Some no_overrides)
              "alice" ["dev"; "ops"] test_world s)
    as (_&Hnil&_&Hcc&Hns).
  { apply rtc_once. by apply (step_call MRawConfig). }
  split; [exact Hnil|]. split.
  - apply (Hcc (direct_client_config no_kubeconfig) s None (Some ErrEmptyConfig)
             test_world test_world []); [reflexivity..|].
    by apply (falls_empty (Imp := test_imports) _ _ None ErrEmptyConfig).
  - by apply (Hns (direct_client_config no_kubeconfig) s "" (Some ErrEmptyConfig)
                test_world).
Defined.

(** A receiver built by the constructor: [createClientConfig] calls the
    non-interactive constructor and returns its handle. *)
Lemma NewImpersonationClientConfig_is_non_interactive_witness :
  let s := constructed_state (kubeconfig "default") in
  createClientConfig s =
    Ret (Some (NewNonInteractiveClientConfig (kubeconfig "default") "" no_overrides
                 (file_loader (kubeconfig "default") true)), None)
      (state_after MCreateClientConfig s) ∧
  trace (state_after MCreateClientConfig s) =
    [EvLoad; EvNewNonInteractiveClientConfig].
Proof.
  intros s. split; [|reflexivity].
  destruct (NewImpersonationClientConfig_is_non_interactive
              (Some (file_loader (kubeconfig "default") true)) (Some no_overrides)
              "alice" ["dev"; "ops"] test_world s (rtc_refl _ _))
    as (_&_&_&_&Hbuilds).
  by apply (Hbuilds (file_loader (kubeconfig "default") true) no_overrides
              (kubeconfig "default") test_world).
Defined.

(** ** The further properties on concrete receivers *)

(** The kubeconfig cannot be used: [ClientConfig] returns the error and no
    configuration, and asks neither the loader nor the detector. *)
Lemma ClientConfig_hard_error_witness :
  ClientConfig (Cmd := invalid) (kube_state false true) =
    Ret (None, Some ErrInvalidConfig)
      (state_after (Cmd := invalid) MClientConfig (kube_state false true)) ∧
  trace (state_after (Cmd := invalid) MClientConfig (kube_state false true)) =
    [EvLoad; EvNewNonInteractiveClientConfig; EvMergedClientConfig].
Proof.
  split; [|reflexivity].
  apply (ClientConfig_hard_error (Cmd := invalid)
           (kube_state false true)
           (invalid_client_config (kubeconfig "default"))
           (state_after (Cmd := invalid) MCreateClientConfig (kube_state false true))
           (Some 1%positive) ErrInvalidConfig test_world);
    reflexivity.
Defined.

(** The configuration file cannot be read: each accessor returns its zero
    value and the loader's error. *)
Lemma accessors_load_failure_witness :
  RawConfig flaky_state =
    Ret (clientcmdapi_Config_zero, Some ErrInvalidConfig)
      (state_after MRawConfig flaky_state) ∧
  ClientConfig flaky_state =
    Ret (None, Some ErrInvalidConfig) (state_after MClientConfig flaky_state) ∧
  Namespace flaky_state =
    Ret ("", false, Some ErrInvalidConfig) (state_after MNamespace flaky_state).
Proof.
  apply (accessors_load_failure flaky_state
           (flaky_loader (kubeconfig "default")) None ErrInvalidConfig
           {| heap := heap test_world; env := 1 |});
    reflexivity.
Defined.

(** [RawConfig] returns the kubeconfig as the merged configuration has it. *)
Lemma RawConfig_delegates_witness :
  RawConfig (kube_state false true) =
    Ret (kubeconfig "default", None) (state_after MRawConfig (kube_state false true)).
Proof.
  apply (RawConfig_delegates
           (kube_state false true)
           (direct_client_config (kubeconfig "default"))
           (state_after MCreateClientConfig (kube_state false true))).
  reflexivity.
Defined.

(** The context names the namespace team-a: [Namespace] returns it although
    in-cluster configuration is possible. *)
Lemma Namespace_explicit_namespace_witness :
  Namespace (namespace_state "team-a" true) =
    Ret ("team-a", false, None)
      (state_after MNamespace (namespace_state "team-a" true)) ∧
  trace (state_after MNamespace (namespace_state "team-a" true)) =
    [EvLoad; EvNewNonInteractiveClientConfig; EvMergedNamespace; EvPossible].
Proof.
  split; [|reflexivity].
  apply (Namespace_explicit_namespace
           (namespace_state "team-a" true)
           (direct_client_config (kubeconfig "team-a"))
           (state_after MCreateClientConfig (namespace_state "team-a" true))
           "team-a" None test_world (detector true) test_world);
    done.
Defined.

(** The context names no namespace: [Namespace] returns the detector's. *)
Lemma Namespace_in_cluster_fallback_witness :
  Namespace (namespace_state "" true) =
    Ret ("kube-system", false, None)
      (state_after MNamespace (namespace_state "" true)) ∧
  trace (state_after MNamespace (namespace_state "" true)) =
    [EvLoad; EvNewNonInteractiveClientConfig; EvMergedNamespace; EvPossible;
     EvMergedRawConfig; EvLog "Using in-cluster namespace"; EvInClusterNamespace].
Proof.
  split; [|reflexivity].
  apply (Namespace_in_cluster_fallback
           (namespace_state "" true)
           (direct_client_config (kubeconfig ""))
           (state_after MCreateClientConfig (namespace_state "" true))
           v1_NamespaceDefault None test_world (detector true) test_world test_world
           [EvMergedRawConfig]);
    try reflexivity.
  by apply implicit_no_namespace with (kubeconfig "").
Defined.

(** After a [ClientConfig] that panicked, the mutex is free and a [Namespace]
    does not wait. *)
Lemma mutex_released_after_every_call_witness :
  loadingLock (self (state_after MClientConfig (empty_state false))) = false ∧
  invoke MNamespace (state_after MClientConfig (empty_state false)) ≠ Blocked.
Proof.
  apply (mutex_released_after_every_call (empty_state false)); [reflexivity|].
  apply rtc_once. by apply (step_call MClientConfig).
Defined.

(** A receiver built by the constructor, after a [Namespace] that panicked:
    [ConfigAccess] still returns the constructor's loader. *)
Lemma ConfigAccess_is_the_loader_witness :
  ConfigAccess (self (state_after MNamespace (constructed_state (kubeconfig "default")))) =
    Some (file_loader (kubeconfig "default") true) ∧
  user (self (state_after MNamespace (constructed_state (kubeconfig "default")))) =
    "alice".
Proof.
  destruct (ConfigAccess_is_the_loader
              (Some (file_loader (kubeconfig "default") true)) (Some no_overrides)
              "alice" ["dev"; "ops"] test_world
              (state_after MNamespace (constructed_state (kubeconfig "default"))))
    as (Hloader&_&Huser&_).
  { apply rtc_once. by apply (step_call MNamespace). }
  by split.
Defined.

(** Three calls of [createClientConfig] with a configuration file that cannot
    be read at first: one failed load, one load that builds the handle, one
    cached answer, and one call of a constructor in all. *)
Lemma merged_configuration_is_built_once_witness :
  let s := state_after MCreateClientConfig
             (state_after MCreateClientConfig
                (state_after MCreateClientConfig flaky_state)) in
  constructions (trace s) = cached (self s) ∧
  trace s = [EvLoad; EvLoad; EvNewNonInteractiveClientConfig].
Proof.
  intros s. split; [|reflexivity].
  apply (merged_configuration_is_built_once
           (test_receiver (flaky_loader (kubeconfig "default")) (Some (detector false)))
           test_world s); [reflexivity|].
  do 2 (eapply rtc_l; [by apply (step_call MCreateClientConfig)|]).
  apply rtc_once. by apply (step_call MCreateClientConfig).
Defined.

(** On the last branch [ClientConfig] returns a configuration and no error. *)
Lemma ClientConfig_returns_witness :
  (∃ t, trace (state_after MClientConfig (kube_state true false)) =
          t ++ [EvInClusterClientConfig]) ∨
  ((Some 1%positive : option addr) = None ∧ is_Some (None : option test_error)) ∨
  (is_Some (Some 1%positive : option addr) ∧ hard_error (None : option test_error) = false).
Proof.
  apply (ClientConfig_returns (kube_state true false) (Some 1%positive) None
           (state_after MClientConfig (kube_state true false))).
  reflexivity.
Defined.

(** A loader that returns neither configuration nor error makes
    [createClientConfig] panic, with the mutex released and nothing cached. *)
Lemma createClientConfig_panics_iff_witness :
  createClientConfig null_state =
    Panic {| self := self null_state; world := test_world; trace := [EvLoad] |}.
Proof.
  apply (proj2 (createClientConfig_panics_iff null_state _)).
  split; [reflexivity|]. split; [reflexivity|].
  right. exists null_loader, test_world.
  split; [reflexivity|]. split; [by left|reflexivity].
Defined.

End examples.
